(** * kolesa-dwh: the ingestion core, embedded and verified

    A shallow embedding of the work queue, the discovery scanner's enqueue
    step, the fetch worker's batch loop, the blocking detector, the HTML
    extractor and the Silver-layer upsert, with the properties the
    specification states about them.

    Conventions.
    - A Python [str] is the list of its code points ([list N]); [len] is
      [length].  Literals are written as UTF-8 text and decoded by [lit].
    - A Python [int] is a [Z].
    - A point in time is a [Z], the number of microseconds since the epoch.
    - A table with a primary key is a [gmap] from the key to the row.
    - Code that can raise returns a [result]. *)

From Stdlib Require Import ZArith NArith List String Ascii Bool Lia.
From stdpp Require Import base option list gmap fin_maps fin_sets strings pretty.

Local Open Scope Z_scope.

(** ** Python values *)

Abbreviation pystr := (list N).

(** UTF-8 decoding of a source literal into code points. *)
Fixpoint utf8_decode (bs : list N) : pystr :=
  match bs with
  | [] => []
  | b0 :: r0 =>
    if (b0 <? 128)%N then b0 :: utf8_decode r0
    else match r0 with
    | [] => [b0]
    | b1 :: r1 =>
      if (b0 <? 224)%N then ((b0 - 192) * 64 + (b1 - 128))%N :: utf8_decode r1
      else match r1 with
      | [] => [b0; b1]
      | b2 :: r2 =>
        if (b0 <? 240)%N
        then ((b0 - 224) * 4096 + (b1 - 128) * 64 + (b2 - 128))%N :: utf8_decode r2
        else match r2 with
        | [] => [b0; b1; b2]
        | b3 :: r3 =>
          ((b0 - 240) * 262144 + (b1 - 128) * 4096 + (b2 - 128) * 64 + (b3 - 128))%N
            :: utf8_decode r3
        end
      end
    end
  end.

Definition lit (s : string) : pystr :=
  utf8_decode (map (fun a => N_of_ascii a) (list_ascii_of_string s)).

(** [str(n)] for an integer. *)
Definition str_of_int (n : Z) : pystr := lit (pretty n).

(** Exceptions and fallible computations. *)
Inductive exn : Type :=
  | ValueError
  | IndexError
  | AttributeError
  | KeyError
  | OverflowError
  | BlockingDetectedError
  | OtherException (msg : pystr).

Inductive result (A : Type) : Type :=
  | Ok (a : A)
  | Raise (e : exn).
Arguments Ok {A} a.
Arguments Raise {A} e.

#[global] Instance result_ret : MRet result := fun _ a => Ok a.
#[global] Instance result_fmap : FMap result := fun _ _ f m =>
  match m with
  | Ok a => Ok (f a)
  | Raise e => Raise e
  end.
#[global] Instance result_bind : MBind result := fun _ _ k m =>
  match m with
  | Ok a => k a
  | Raise e => Raise e
  end.

(** [post P m]: the computation returns, and its value satisfies [P]. *)
Definition post {A} (P : A -> Prop) (m : result A) : Prop :=
  exists a, m = Ok a /\ P a.

(** ** Work queue (ctl.scrape_queue) *)

Module Queue.

Inductive qstate : Type := NEW | RETRY | FETCHED | INACTIVE.

#[global] Instance qstate_eq_dec : EqDecision qstate.
Proof. solve_decision. Defined.

Record entry : Type := mkEntry {
  url : pystr;
  state : qstate;
  attempts : Z;
  last_attempt_at : option Z;
  next_retry_at : option Z;
  last_http_status : option Z;
  last_error : option pystr;
}.

(** The queue table, keyed by [listing_id]. *)
Abbreviation table := (gmap Z entry).

(** Modelled from the spec: the column defaults of [ctl.scrape_queue], whose
    DDL is not part of the sources.  A row inserted with only
    [(listing_id, url)] is NEW with zero attempts and no retry time. *)
Definition new_row (u : pystr) : entry :=
  {| url := u; state := NEW; attempts := 0; last_attempt_at := None;
     next_retry_at := None; last_http_status := None; last_error := None |}.

(** [INSERT INTO ctl.scrape_queue(listing_id, url) VALUES (..)
     ON CONFLICT (listing_id) DO NOTHING]; the second component is
    [cur.rowcount]. *)
Definition enqueue (listing_id : Z) (u : pystr) (q : table) : table * Z :=
  match q !! listing_id with
  | Some _ => (q, 0)
  | None => (<[listing_id := new_row u]> q, 1)
  end.

(** One minute, in microseconds. *)
Definition minute : Z := 60000000.

(** One day, in microseconds. *)
Definition day : Z := 24 * 60 * minute.

(** [min(2 ** attempts, 60*24)], for a non-negative attempt count. *)
Definition backoff_minutes (attempts : Z) : Z := Z.min (2 ^ attempts) (60 * 24).

(** [schedule_retry(listing_id, attempts, status, error)] run at time [now]. *)
Definition schedule_retry (now : Z) (listing_id attempts status : Z)
    (error : pystr) (q : table) : table :=
  let next_retry := now + backoff_minutes attempts * minute in
  alter (fun r =>
    {| url := url r; state := RETRY; attempts := attempts;
       last_attempt_at := last_attempt_at r;
       next_retry_at := Some next_retry;
       last_http_status := Some status;
       last_error := Some error |}) listing_id q.

(** [update_state(listing_id, state, status, error)]. *)
Definition update_state (listing_id : Z) (st : qstate) (status : Z)
    (error : option pystr) (q : table) : table :=
  alter (fun r =>
    {| url := url r; state := st; attempts := attempts r;
       last_attempt_at := last_attempt_at r;
       next_retry_at := None;
       last_http_status := Some status;
       last_error := error |}) listing_id q.

(** The attempt-tracking update at the head of the batch loop:
    [SET last_attempt_at = NOW(), attempts = attempts + 1]. *)
Definition mark_attempt (now : Z) (listing_id : Z) (q : table) : table :=
  alter (fun r =>
    {| url := url r; state := state r; attempts := attempts r + 1;
       last_attempt_at := Some now;
       next_retry_at := next_retry_at r;
       last_http_status := last_http_status r;
       last_error := last_error r |}) listing_id q.

(** The WHERE clause of the claim query. *)
Definition eligible (now : Z) (r : entry) : bool :=
  match state r with
  | NEW | RETRY =>
    match next_retry_at r with
    | None => true
    | Some t => t <=? now
    end
  | _ => false
  end.

End Queue.

(** ** Discovery scanner: page loop and enqueue *)

Module Discover.
Import Queue.

(** What [discover_ids_from_page] does for one page. *)
Inductive page_outcome : Type :=
  | PageIds (ids : gset Z)
  | PageBlocked
  | PageFailed (msg : pystr).

(** The page loop of [discover_pages_to_db]. *)
Fixpoint scan_loop (fetch : Z -> page_outcome) (pages : list Z)
    (all_ids : gset Z) : gset Z :=
  match pages with
  | [] => all_ids
  | page :: rest =>
    match fetch page with
    | PageIds ids =>
      let all_ids := all_ids ∪ ids in
      if decide (ids = ∅) then all_ids else scan_loop fetch rest all_ids
    | PageBlocked => all_ids
    | PageFailed _ => scan_loop fetch rest all_ids
    end
  end.

(** [range(page_from, page_to + 1)]. *)
Definition page_range (page_from page_to : Z) : list Z :=
  seqZ page_from (page_to + 1 - page_from).

Definition listing_url (base_url : pystr) (listing_id : Z) : pystr :=
  base_url ++ lit "/a/show/" ++ str_of_int listing_id.

(** The insert loop: one [enqueue] per id, summing [cur.rowcount]. *)
Fixpoint insert_ids (base_url : pystr) (ids : list Z) (q : table) (inserted : Z)
    : table * Z :=
  match ids with
  | [] => (q, inserted)
  | listing_id :: rest =>
    let '(q', n) := enqueue listing_id (listing_url base_url listing_id) q in
    insert_ids base_url rest q' (inserted + n)
  end.

(** The rows that a run of the insert loop offers to the table. *)
Definition fresh_rows (base_url : pystr) (ids : list Z) : table :=
  list_to_map (map (fun i => (i, new_row (listing_url base_url i))) ids).

(** [discover_pages_to_db(page_from, page_to)]: the new queue and the
    returned count.  A Python set is iterated in some order without
    repetition; [elements] fixes one. *)
Definition discover_pages_to_db (base_url : pystr) (fetch : Z -> page_outcome)
    (page_from page_to : Z) (q : table) : table * Z :=
  let all_ids := scan_loop fetch (page_range page_from page_to) ∅ in
  if decide (all_ids = ∅) then (q, 0)
  else insert_ids base_url (elements all_ids) q 0.

End Discover.

(** ** Listing records and Python numbers *)

(** A Python [float], by its IEEE-754 binary64 bit pattern. *)
Inductive pyfloat : Type := Float64 (bits : Z).

(** [float(n)] for an integer [n]: conversion rounds to the nearest binary64,
    ties to even, and raises [OverflowError] beyond the largest double.  The
    result of converting an integer is itself an integer, and is represented
    here by that value. *)
Definition round_to_double (n : Z) : Z :=
  let a := Z.abs n in
  if a <? 2 ^ 53 then n
  else
    let k := Z.log2 a - 52 in
    let q := a / 2 ^ k in
    let r := a mod 2 ^ k in
    let half := 2 ^ (k - 1) in
    let q' := if r <? half then q
              else if half <? r then q + 1
              else if Z.even q then q else q + 1 in
    Z.sgn n * (q' * 2 ^ k).

Definition float_of_int (n : Z) : result Z :=
  let v := round_to_double n in
  if 2 ^ 1024 <=? Z.abs v then Raise OverflowError else Ok v.

(** Whether [float(n)] raises. *)
Definition float_raises (n : Z) : bool :=
  match float_of_int n with
  | Ok _ => false
  | Raise _ => true
  end.


Module Listing.

(** The dict returned by [parse_listing], one field per key. *)
Record listing : Type := mkListing {
  listing_id : Z;
  url : pystr;
  title : option pystr;
  price_kzt : option Z;
  city : option pystr;
  region : option pystr;
  make : option pystr;
  model : option pystr;
  generation : option pystr;
  trim : option pystr;
  car_year : option Z;
  mileage_km : option Z;
  body_type : option pystr;
  engine_volume_l : option pyfloat;
  engine_type : option pystr;
  transmission : option pystr;
  drivetrain : option pystr;
  steering : option pystr;
  color : option pystr;
  customs_cleared : option bool;
  seller_name : option pystr;
  seller_type : pystr;
  options_text : option pystr;
  options_list : list pystr;
  photos : list pystr;
  photo_count : Z;
}.

(** Python values that occur in the dict. *)
Inductive pyval : Type :=
  | VNone
  | VBool (b : bool)
  | VInt (n : Z)
  | VFloat (x : pyfloat)
  | VStr (s : pystr)
  | VList (l : list pystr).

Definition opt {A} (f : A -> pyval) (o : option A) : pyval :=
  match o with
  | Some a => f a
  | None => VNone
  end.

(** The dict literal that [parse_listing] returns, key by key. *)
Definition to_dict (l : listing) : list (string * pyval) :=
  [ ("listing_id", VInt (listing_id l));
    ("url", VStr (url l));
    ("title", opt VStr (title l));
    ("price_kzt", opt VInt (price_kzt l));
    ("city", opt VStr (city l));
    ("region", opt VStr (region l));
    ("make", opt VStr (make l));
    ("model", opt VStr (model l));
    ("generation", opt VStr (generation l));
    ("trim", opt VStr (trim l));
    ("car_year", opt VInt (car_year l));
    ("mileage_km", opt VInt (mileage_km l));
    ("body_type", opt VStr (body_type l));
    ("engine_volume_l", opt VFloat (engine_volume_l l));
    ("engine_type", opt VStr (engine_type l));
    ("transmission", opt VStr (transmission l));
    ("drivetrain", opt VStr (drivetrain l));
    ("steering", opt VStr (steering l));
    ("color", opt VStr (color l));
    ("customs_cleared", opt VBool (customs_cleared l));
    ("seller_name", opt VStr (seller_name l));
    ("seller_type", VStr (seller_type l));
    ("options_text", opt VStr (options_text l));
    ("options_list", VList (options_list l));
    ("photos", VList (photos l));
    ("photo_count", VInt (photo_count l)) ]%string.

(** The keys the specification requires of every extracted record. *)
Definition required_keys : list string :=
  [ "listing_id"; "url"; "title"; "price_kzt"; "city"; "region"; "make";
    "model"; "generation"; "trim"; "car_year"; "mileage_km"; "body_type";
    "engine_volume_l"; "engine_type"; "transmission"; "drivetrain";
    "steering"; "color"; "customs_cleared"; "seller_name"; "seller_type";
    "options_text"; "photos"; "photo_count" ]%string.

(** [d[key]] on the dict. *)
Fixpoint dict_get (key : string) (d : list (string * pyval)) : option pyval :=
  match d with
  | [] => None
  | (k, v) :: rest => if decide (k = key) then Some v else dict_get key rest
  end.

End Listing.

(** ** Silver layer: listing_current, listing_snapshot_daily, listing_price_event *)

Module Silver.
Import Listing.

(** A [datetime]: the instant it denotes and its [tzinfo] (the UTC offset in
    microseconds), absent for a naive value. *)
Record datetime : Type := mkDatetime {
  instant : Z;
  tzinfo : option Z;
}.

(** A row of [silver.listing_current]; the key [listing_id] is the map key. *)
Record current_row : Type := mkCurrent {
  c_url : pystr;
  c_title : option pystr;
  c_price_kzt : option Z;
  c_city : option pystr;
  c_region : option pystr;
  c_make : option pystr;
  c_model : option pystr;
  c_generation : option pystr;
  c_trim : option pystr;
  c_car_year : option Z;
  c_mileage_km : option Z;
  c_body_type : option pystr;
  c_engine_volume_l : option pyfloat;
  c_engine_type : option pystr;
  c_transmission : option pystr;
  c_drivetrain : option pystr;
  c_steering : option pystr;
  c_color : option pystr;
  c_customs_cleared : option bool;
  c_seller_name : option pystr;
  c_seller_type : pystr;
  c_seller_user_id : option Z;
  c_seller_months_on_site : option Z;
  c_seller_inventory_count : option Z;
  c_seller_address : option pystr;
  c_options_text : option pystr;
  c_photos : pystr;
  c_first_seen_at : Z;
  c_last_seen_at : Z;
  c_is_active : bool;
  c_payload_hash : pystr;
}.

(** A row of [silver.listing_snapshot_daily], keyed by
    [(listing_id, snapshot_date)]; a date is a day number. *)
Record daily_row : Type := mkDaily {
  d_price_kzt : option Z;
  d_is_active : bool;
  d_views : option Z;
  d_photo_count : option Z;
}.

(** A row of [silver.listing_price_event]. *)
Record price_event : Type := mkEvent {
  e_listing_id : Z;
  e_event_ts : Z;
  e_old_price_kzt : Z;
  e_new_price_kzt : Z;
}.

Record db : Type := mkDb {
  current : gmap Z current_row;
  daily : gmap (Z * Z) daily_row;
  events : list price_event;
}.

(** Modelled from the spec: the uniqueness constraint of
    [silver.listing_price_event], whose DDL is not part of the sources.  The
    spec suppresses duplicates "for the same (listing, timestamp)", which is
    also the primary key of the Gold table loaded from it
    ([gold.fact_price_event], PRIMARY KEY (listing_id, event_ts)). *)
Definition event_conflicts (e : price_event) (es : list price_event) : bool :=
  existsb (fun e' => (e_listing_id e' =? e_listing_id e) && (e_event_ts e' =? e_event_ts e)) es.

(** [INSERT INTO silver.listing_price_event ... ON CONFLICT DO NOTHING]. *)
Definition insert_price_event (e : price_event) (es : list price_event)
    : list price_event :=
  if event_conflicts e es then es else es ++ [e].

(** A price that fits NUMERIC(14,2), the type of the price columns of the
    Gold tables ([gold_ddl.py]) that are loaded from Silver.  Neither the
    spec nor the sources bound the Silver column itself; the range is used
    only where a statement names it. *)
Definition price_in_column (p : Z) : Prop := Z.abs p < 10 ^ 12.


Section Upsert.

(** [json.dumps] and SHA-256 are library code. *)
Variable json_of_listing : listing -> pystr.
Variable json_of_photos : list pystr -> pystr.
Variable sha256_hex : pystr -> pystr.

(** [payload_hash(obj)]. *)
Definition payload_hash (obj : listing) : pystr :=
  sha256_hex (json_of_listing obj).

(** The price-event step of [upsert_silver]. *)
Definition price_event_step (l : listing) (fetched_at : datetime)
    (old_price : option Z) (es : list price_event) : result (list price_event) :=
  match old_price, price_kzt l with
  | Some old, Some new =>
    fo ← float_of_int old;
    fn ← float_of_int new;
    if decide (fo ≠ fn)
    then Ok (insert_price_event
               {| e_listing_id := listing_id l; e_event_ts := instant fetched_at;
                  e_old_price_kzt := old; e_new_price_kzt := new |} es)
    else Ok es
  | _, _ => Ok es
  end.

(** The row offered by the INSERT into [silver.listing_current]. *)
Definition excluded_row (l : listing) (first_seen : Z) (fetched_at : datetime)
    (ph : pystr) : current_row :=
  {| c_url := url l; c_title := title l; c_price_kzt := price_kzt l;
     c_city := city l; c_region := region l; c_make := make l;
     c_model := model l; c_generation := generation l; c_trim := trim l;
     c_car_year := car_year l; c_mileage_km := mileage_km l;
     c_body_type := body_type l; c_engine_volume_l := engine_volume_l l;
     c_engine_type := engine_type l; c_transmission := transmission l;
     c_drivetrain := drivetrain l; c_steering := steering l;
     c_color := color l; c_customs_cleared := customs_cleared l;
     c_seller_name := seller_name l; c_seller_type := seller_type l;
     c_seller_user_id := None; c_seller_months_on_site := None;
     c_seller_inventory_count := None; c_seller_address := None;
     c_options_text := options_text l;
     c_photos := json_of_photos (photos l);
     c_first_seen_at := first_seen;
     c_last_seen_at := instant fetched_at;
     c_is_active := true;
     c_payload_hash := ph |}.

(** [ON CONFLICT (listing_id) DO UPDATE SET ...]: the columns listed in the
    SET clause come from the offered row, the others stay. *)
Definition conflict_update (old ex : current_row) : current_row :=
  {| c_url := c_url ex; c_title := c_title ex; c_price_kzt := c_price_kzt ex;
     c_city := c_city ex; c_region := c_region ex; c_make := c_make ex;
     c_model := c_model ex; c_generation := c_generation ex; c_trim := c_trim ex;
     c_car_year := c_car_year ex; c_mileage_km := c_mileage_km ex;
     c_body_type := c_body_type ex; c_engine_volume_l := c_engine_volume_l ex;
     c_engine_type := c_engine_type ex; c_transmission := c_transmission ex;
     c_drivetrain := c_drivetrain ex; c_steering := c_steering ex;
     c_color := c_color ex; c_customs_cleared := c_customs_cleared ex;
     c_seller_name := c_seller_name ex; c_seller_type := c_seller_type ex;
     c_seller_user_id := c_seller_user_id old;
     c_seller_months_on_site := c_seller_months_on_site old;
     c_seller_inventory_count := c_seller_inventory_count old;
     c_seller_address := c_seller_address old;
     c_options_text := c_options_text ex;
     c_photos := c_photos ex;
     c_first_seen_at := c_first_seen_at old;
     c_last_seen_at := c_last_seen_at ex;
     c_is_active := true;
     c_payload_hash := c_payload_hash ex |}.

Definition upsert_current (k : Z) (ex : current_row) (t : gmap Z current_row)
    : gmap Z current_row :=
  match t !! k with
  | Some old => <[k := conflict_update old ex]> t
  | None => <[k := ex]> t
  end.

(** The daily-snapshot upsert: the INSERT offers [views = NULL]; the SET
    clause on conflict lists price, activity and photo count. *)
Definition upsert_daily (k : Z * Z) (price : option Z) (photo_cnt : option Z)
    (t : gmap (Z * Z) daily_row) : gmap (Z * Z) daily_row :=
  match t !! k with
  | Some old =>
    <[k := {| d_price_kzt := price; d_is_active := true;
              d_views := d_views old; d_photo_count := photo_cnt |}]> t
  | None =>
    <[k := {| d_price_kzt := price; d_is_active := true;
              d_views := None; d_photo_count := photo_cnt |}]> t
  end.

(** [upsert_silver(listing, fetched_at)], run on a day whose local calendar
    date ([date.today()]) is [today].  The three statements run in one
    transaction: when the function raises, nothing is written.  The
    ["listing_id" not in listing] guard cannot fire on a [listing] record. *)
Definition upsert_silver (today : Z) (l : listing) (fetched_at : datetime)
    (s : db) : result db :=
  match tzinfo fetched_at with
  | None => Raise ValueError
  | Some _ =>
    let ph := payload_hash l in
    let row := current s !! listing_id l in
    let old_price := row ≫= c_price_kzt in
    let first_seen :=
      match row with Some r => c_first_seen_at r | None => instant fetched_at end in
    es ← price_event_step l fetched_at old_price (events s);
    Ok {| current :=
            upsert_current (listing_id l)
              (excluded_row l first_seen fetched_at ph) (current s);
          daily :=
            upsert_daily (listing_id l, today) (price_kzt l)
              (Some (photo_count l)) (daily s);
          events := es |}
  end.

End Upsert.

(** [mark_silver_inactive(listing_id)], with [CURRENT_DATE = today]. *)
Definition mark_silver_inactive (today : Z) (listing_id : Z) (s : db) : db :=
  {| current :=
       alter (fun r =>
         {| c_url := c_url r; c_title := c_title r; c_price_kzt := c_price_kzt r;
            c_city := c_city r; c_region := c_region r; c_make := c_make r;
            c_model := c_model r; c_generation := c_generation r;
            c_trim := c_trim r; c_car_year := c_car_year r;
            c_mileage_km := c_mileage_km r; c_body_type := c_body_type r;
            c_engine_volume_l := c_engine_volume_l r;
            c_engine_type := c_engine_type r; c_transmission := c_transmission r;
            c_drivetrain := c_drivetrain r; c_steering := c_steering r;
            c_color := c_color r; c_customs_cleared := c_customs_cleared r;
            c_seller_name := c_seller_name r; c_seller_type := c_seller_type r;
            c_seller_user_id := c_seller_user_id r;
            c_seller_months_on_site := c_seller_months_on_site r;
            c_seller_inventory_count := c_seller_inventory_count r;
            c_seller_address := c_seller_address r;
            c_options_text := c_options_text r; c_photos := c_photos r;
            c_first_seen_at := c_first_seen_at r;
            c_last_seen_at := c_last_seen_at r;
            c_is_active := false;
            c_payload_hash := c_payload_hash r |}) listing_id (current s);
     daily :=
       alter (fun r =>
         {| d_price_kzt := d_price_kzt r; d_is_active := false;
            d_views := d_views r; d_photo_count := d_photo_count r |})
         (listing_id, today) (daily s);
     events := events s |}.

End Silver.

(** ** Python string operations *)

Module Py.

Local Open Scope N_scope.

(** [str.isspace] on one code point: the Unicode white-space characters
    that [str.split()] and [str.strip()] treat as separators. *)
Definition isspace (c : N) : bool :=
  ((9 <=? c) && (c <=? 13)) || ((28 <=? c) && (c <=? 32)) ||
  (c =? 133) || (c =? 160) || (c =? 5760) ||
  ((8192 <=? c) && (c <=? 8202)) || (c =? 8232) || (c =? 8233) ||
  (c =? 8239) || (c =? 8287) || (c =? 12288).

Fixpoint is_prefix (p s : pystr) : bool :=
  match p, s with
  | [], _ => true
  | _ :: _, [] => false
  | a :: p', b :: s' => (a =? b) && is_prefix p' s'
  end.

(** [s.startswith(p)]. *)
Definition startswith (s p : pystr) : bool := is_prefix p s.

(** [needle in hay]. *)
Fixpoint contains (needle hay : pystr) : bool :=
  is_prefix needle hay ||
  match hay with
  | [] => false
  | _ :: rest => contains needle rest
  end.

Fixpoint strip_prefix (p s : pystr) : option pystr :=
  match p, s with
  | [], _ => Some s
  | _ :: _, [] => None
  | a :: p', b :: s' => if a =? b then strip_prefix p' s' else None
  end.

(** The longest prefix of [s] without the character [stop], and the rest. *)
Fixpoint take_until (stop : N) (s : pystr) : pystr * pystr :=
  match s with
  | [] => ([], [])
  | c :: rest =>
    if c =? stop then ([], s)
    else let '(a, b) := take_until stop rest in (c :: a, b)
  end.

(** [s.split(sep)] for a one-character separator. *)
Fixpoint split_on (sep : N) (s : pystr) : list pystr :=
  match s with
  | [] => [[]]
  | c :: rest =>
    match split_on sep rest with
    | [] => [[]]
    | w :: ws => if c =? sep then [] :: w :: ws else (c :: w) :: ws
    end
  end.

(** [s.split()]: the maximal runs of non-white-space characters. *)
Fixpoint split_ws_aux (cur : pystr) (s : pystr) : list pystr :=
  match s with
  | [] => match cur with [] => [] | _ => [rev cur] end
  | c :: rest =>
    if isspace c
    then match cur with
         | [] => split_ws_aux [] rest
         | _ => rev cur :: split_ws_aux [] rest
         end
    else split_ws_aux (c :: cur) rest
  end.

Definition split_ws (s : pystr) : list pystr := split_ws_aux [] s.

(** [sep.join(parts)]. *)
Fixpoint join (sep : pystr) (parts : list pystr) : pystr :=
  match parts with
  | [] => []
  | [p] => p
  | p :: ps => p ++ sep ++ join sep ps
  end.

Fixpoint lstrip (s : pystr) : pystr :=
  match s with
  | [] => []
  | c :: rest => if isspace c then lstrip rest else s
  end.

(** [s.strip()]. *)
Definition strip (s : pystr) : pystr := rev (lstrip (rev (lstrip s))).

(** [s.replace(c, "")] for a one-character [c]. *)
Definition remove_char (c : N) (s : pystr) : pystr :=
  filter (fun x => x ≠ c) s.

(** [s[:n]]. *)
Definition slice_to (n : nat) (s : pystr) : pystr := take n s.

(** [len(s)]. *)
Definition len (s : pystr) : Z := Z.of_nat (length s).

(** Lower-casing of an ASCII code point. *)
Definition ascii_lower (c : N) : N :=
  if (65 <=? c) && (c <=? 90) then c + 32 else c.

Section Lower.

(** The lower-case expansion of a non-ASCII character, which Unicode lets
    depend on what stands before it (given nearest character first) and
    after it. *)
Variable lower_nonascii : pystr -> N -> pystr -> pystr.

Definition lower_char (before : pystr) (c : N) (after : pystr) : pystr :=
  if c <? 128 then [ascii_lower c] else lower_nonascii before c after.

Fixpoint lower_from (before s : pystr) : pystr :=
  match s with
  | [] => []
  | c :: rest => lower_char before c rest ++ lower_from (c :: before) rest
  end.

(** [s.lower()]. *)
Definition lower (s : pystr) : pystr := lower_from [] s.

End Lower.

(** Strings made of white space only, and strings free of it. *)
Definition allspace (s : pystr) : bool := forallb isspace s.
Definition nospace (s : pystr) : bool := forallb (fun c => negb (isspace c)) s.

(** A character that [lower] leaves alone wherever it stands. *)
Definition lower_stable (c : N) : bool :=
  (c <? 128) && negb ((65 <=? c) && (c <=? 90)).

End Py.

(** ** Blocking detector *)

Module Blocking.
Import Py.

Definition short_keywords : list pystr :=
  [lit "captcha"; lit "cloudflare"; lit "challenge"; lit "verify"].

Definition blocking_patterns : list (pystr * pystr) :=
  [ (lit "cloudflare.*ray.*id", lit "Cloudflare protection page");
    (lit "checking.*browser.*before.*accessing", lit "Cloudflare challenge");
    (lit "please.*complete.*security.*check", lit "Security check required");
    (lit "unusual.*traffic.*detected", lit "Unusual traffic detected");
    (lit "access.*denied.*robot", lit "Access denied - robot");
    (lit "verify.*you.*are.*human", lit "Human verification required");
    (lit "captcha.*challenge", lit "CAPTCHA challenge page") ].

Definition title_keywords : list pystr :=
  [lit "captcha"; lit "challenge"; lit "verify"; lit "blocked"; lit "access denied"].

(** A match of [<title[^>]*>([^<]+)</title>] starting at the head of [s]:
    its group 1.  Neither class can consume its own terminator, so the greedy
    match is the only one. *)
Definition title_at (s : pystr) : option pystr :=
  match strip_prefix (lit "<title") s with
  | None => None
  | Some r =>
    let '(_, r1) := take_until 62 r in
    match r1 with
    | [] => None
    | _ :: r2 =>
      let '(g, r3) := take_until 60 r2 in
      match g with
      | [] => None
      | _ :: _ => if is_prefix (lit "</title>") r3 then Some g else None
      end
    end
  end.

(** [re.search(r"<title[^>]*>([^<]+)</title>", s)]: group 1 of the leftmost
    match. *)
Fixpoint title_search (s : pystr) : option pystr :=
  match title_at s with
  | Some g => Some g
  | None =>
    match s with
    | [] => None
    | _ :: rest => title_search rest
    end
  end.

Section Detect.

Variable lower_nonascii : pystr -> N -> pystr -> pystr.

(** [re.search(pattern, text, re.IGNORECASE)] as a truth value; the regular
    expression engine is library code. *)
Variable re_search_icase : pystr -> pystr -> bool.

(** The loop over [blocking_patterns]: the reason of the first match. *)
Fixpoint first_pattern (ps : list (pystr * pystr)) (text : pystr) : option pystr :=
  match ps with
  | [] => None
  | (pattern, reason) :: rest =>
    if re_search_icase pattern text then Some reason else first_pattern rest text
  end.

(** [detect_blocking(html, url)]. *)
Definition detect_blocking (html url : pystr) : bool * option pystr :=
  let html_lower := lower lower_nonascii html in
  if (len html <? 5000)%Z && existsb (fun keyword => contains keyword html_lower) short_keywords
  then (true, Some (lit "Suspiciously short response with blocking keywords"))
  else
    match first_pattern blocking_patterns html_lower with
    | Some reason => (true, Some reason)
    | None =>
      let title_hit :=
        match title_search html_lower with
        | Some title =>
          if existsb (fun keyword => contains keyword title) title_keywords
          then Some (lit "Blocking page title: " ++ slice_to 50 title)
          else None
        | None => None
        end in
      match title_hit with
      | Some reason => (true, Some reason)
      | None =>
        if contains (lit "cf-ray") html_lower && (len html <? 20000)%Z
           && (contains (lit "challenge") html_lower || contains (lit "checking") html_lower)
        then (true, Some (lit "Cloudflare challenge page"))
        else (false, None)
      end
    end.

End Detect.

End Blocking.

(** ** HTML extractor *)

Module Parse.
Import Py Listing.

(** [try: body except (classes): handler]. *)
Definition catch {A} (body : result A) (handled : exn -> bool)
    (handler : result A) : result A :=
  match body with
  | Ok a => Ok a
  | Raise e => if handled e then handler else Raise e
  end.

Definition value_or_attribute_error (e : exn) : bool :=
  match e with ValueError | AttributeError => true | _ => false end.

Definition value_or_index_error (e : exn) : bool :=
  match e with ValueError | IndexError => true | _ => false end.

(** [l.index(x)]: the first position of [x], or [ValueError]. *)
Fixpoint index_of (x : pystr) (l : list pystr) : option nat :=
  match l with
  | [] => None
  | y :: rest => if decide (y = x) then Some O else S <$> index_of x rest
  end.

Definition list_index (x : pystr) (l : list pystr) : result nat :=
  match index_of x l with
  | Some i => Ok i
  | None => Raise ValueError
  end.

(** [l[i]] for a non-negative [i], or [IndexError]. *)
Definition list_get (l : list pystr) (i : nat) : result pystr :=
  match l !! i with
  | Some x => Ok x
  | None => Raise IndexError
  end.

(** [x in l]. *)
Definition list_mem (x : pystr) (l : list pystr) : bool :=
  bool_decide (x ∈ l).

(** [_clean(s)]. *)
Definition _clean (s : option pystr) : option pystr :=
  match s with
  | None => None
  | Some s =>
    let s := join (lit " ") (split_ws s) in
    match s with
    | [] => None
    | _ :: _ => Some s
    end
  end.

(** [a or b] on optional strings: [None] and the empty string are falsy. *)
Definition py_or (a b : option pystr) : option pystr :=
  match a with
  | Some (_ :: _) => a
  | _ => b
  end.

Definition truthy (a : option pystr) : bool :=
  match a with
  | Some (_ :: _) => true
  | _ => false
  end.

(** The attributes of an [img] element that the extractor reads. *)
Record img : Type := mkImg {
  data_src : option pystr;
  src : option pystr;
  data_lazy_src : option pystr;
}.

(** [text_lines]: the stripped non-empty lines of the page text. *)
Definition text_lines_of (page_text : pystr) : list pystr :=
  omap (fun ln => match strip ln with
                  | [] => None
                  | _ :: _ => Some (strip ln)
                  end)
       (split_on 10 page_text).

(** The option lines after the section header: the loop over
    [range(i + 1, min(i + 20, len(text_lines)))] with its [break]. *)
Fixpoint collect_opts (isupper : pystr -> bool) (stops : list pystr)
    (lines : list pystr) : list pystr :=
  match lines with
  | [] => []
  | line :: rest =>
    match line with
    | [] => collect_opts isupper stops rest
    | _ :: _ =>
      if isupper line || list_mem line stops then []
      else line :: collect_opts isupper stops rest
    end
  end.

(** The de-duplication loop over [photos], first occurrence kept. *)
Fixpoint dedupe (seen : list pystr) (ps : list pystr) : list pystr :=
  match ps with
  | [] => []
  | photo :: rest =>
    if list_mem photo seen then dedupe seen rest
    else photo :: dedupe (photo :: seen) rest
  end.

Definition PRICE_RE : pystr := lit "([\d\s]+)\s*₸".
Definition MILEAGE_RE : pystr := lit "(\d+(?:\s*\d+)*)\s*(?:км|km)".
Definition VOLUME_RE : pystr := lit "(\d+(?:\.\d+)?)".
Definition ENGINE_TYPE_RE : pystr := lit "\(([^)]+)\)".
Definition YEAR_PREFIX_RE : pystr := lit "^\d{4}".
Definition YEAR_RE : pystr := lit "\b(19\d{2}|20\d{2})\b".

Section Extractor.

(** The HTML parser: the page text ([soup.get_text] with a newline
    separator), the text of the first [h1] ([get_text(" ", strip=True)]),
    and the [img] elements in document order. *)
Variable get_text : pystr -> pystr.
Variable find_h1 : pystr -> option pystr.
Variable find_all_img : pystr -> list img.

(** The regular-expression engine: group 1 of the leftmost match of a
    pattern (with or without IGNORECASE), and whether [re.match] succeeds.
    In each pattern used here group 1 takes part in every match. *)
Variable re_search : pystr -> bool -> pystr -> option pystr.
Variable re_match : pystr -> pystr -> bool.

(** [int(s)] and [float(s)] on strings: a value, or [ValueError]. *)
Variable int_of_str : pystr -> option Z.
Variable float_of_str : pystr -> option pyfloat.

(** [str.isupper] and the non-ASCII part of [str.lower]. *)
Variable isupper : pystr -> bool.
Variable lower_nonascii : pystr -> N -> pystr -> pystr.

Definition py_int (s : pystr) : result Z :=
  match int_of_str s with
  | Some n => Ok n
  | None => Raise ValueError
  end.

Definition py_float (s : pystr) : result pyfloat :=
  match float_of_str s with
  | Some x => Ok x
  | None => Raise ValueError
  end.

(** [int(g.replace(" ", "").replace(" ", ""))] under
    [try ... except (ValueError, AttributeError): pass]. *)
Definition int_of_group (g : pystr) : result (option Z) :=
  catch (n ← py_int (remove_char 160 (remove_char 32 g)); Ok (Some n))
        value_or_attribute_error (Ok None).

(** [find_value_after(label)]. *)
Definition find_value_after (text_lines : list pystr) (label : pystr)
    : result (option pystr) :=
  catch (i ← list_index label text_lines;
         if bool_decide (i + 1 < length text_lines)%nat
         then x ← list_get text_lines (i + 1); Ok (_clean (Some x))
         else Ok None)
        value_or_index_error (Ok None).

Definition mileage_of (s : pystr) : result (option Z) :=
  match re_search MILEAGE_RE true s with
  | Some g => int_of_group g
  | None => Ok None
  end.

(** The trim loop over [parts[2:]]. *)
Fixpoint find_trim (skip_words : list pystr) (parts : list pystr) : option pystr :=
  match parts with
  | [] => None
  | part :: rest =>
    if negb (list_mem (lower lower_nonascii part) skip_words)
       && negb (re_match YEAR_PREFIX_RE part)
    then Some part
    else find_trim skip_words rest
  end.

(** The photo loop. *)
Fixpoint collect_photos (imgs : list img) : list pystr :=
  match imgs with
  | [] => []
  | i :: rest =>
    match py_or (py_or (data_src i) (src i)) (data_lazy_src i) with
    | Some (c :: s) =>
      let s0 := c :: s in
      if startswith s0 (lit "http://") || startswith s0 (lit "https://")
         || startswith s0 (lit "/")
      then (if startswith s0 (lit "/") then lit "https://kolesa.kz" ++ s0 else s0)
             :: collect_photos rest
      else collect_photos rest
    | _ => collect_photos rest
    end
  end.

(** What [find_value_after] returns: the cleaned line after the first line
    equal to the label, if both exist. *)
Definition value_after (text_lines : list pystr) (label : pystr) : option pystr :=
  match index_of label text_lines with
  | Some i =>
    match text_lines !! (i + 1)%nat with
    | Some x => _clean (Some x)
    | None => None
    end
  | None => None
  end.

(** The line that follows the first line equal to a label, as it stands in
    [text_lines]. *)
Definition line_after (text_lines : list pystr) (label : pystr) : option pystr :=
  match index_of label text_lines with
  | Some i => text_lines !! (i + 1)%nat
  | None => None
  end.

(** [parse_listing(html, url, listing_id)]. *)
Definition parse_listing (html url : pystr) (listing_id : Z) : result listing :=
  let text_lines := text_lines_of (get_text html) in
  let text := join [10%N] text_lines in
  let title := _clean (find_h1 html) in
  price_kzt ← match re_search PRICE_RE false text with
              | Some g => int_of_group g
              | None => Ok None
              end;
  city ← find_value_after text_lines (lit "Город");
  region1 ← find_value_after text_lines (lit "Регион");
  region ← (if truthy region1 then Ok region1
            else find_value_after text_lines (lit "Область"));
  generation ← find_value_after text_lines (lit "Поколение");
  body_type ← find_value_after text_lines (lit "Кузов");
  transmission ← find_value_after text_lines (lit "Коробка передач");
  drivetrain ← find_value_after text_lines (lit "Привод");
  steering ← find_value_after text_lines (lit "Руль");
  color ← find_value_after text_lines (lit "Цвет");
  customs ← find_value_after text_lines (lit "Растаможен в Казахстане");
  let customs_cleared :=
    if decide (customs = Some (lit "Да")) then Some true
    else if decide (customs = Some (lit "Нет")) then Some false
    else None in
  mileage1 ← mileage_of text;
  mileage_km ← match mileage1 with
               | Some _ => Ok mileage1
               | None =>
                 label1 ← find_value_after text_lines (lit "Пробег");
                 mileage_label ← (if truthy label1 then Ok label1
                                  else find_value_after text_lines (lit "Пробег, км"));
                 match mileage_label with
                 | Some (c :: s) => mileage_of (c :: s)
                 | _ => Ok None
                 end
               end;
  engine_raw ← find_value_after text_lines (lit "Объем двигателя, л");
  engine ← match engine_raw with
           | Some (c :: s) =>
             let raw := c :: s in
             volume ← match re_search VOLUME_RE false raw with
                      | Some g =>
                        catch (x ← py_float g; Ok (Some x))
                              value_or_attribute_error (Ok None)
                      | None => Ok None
                      end;
             Ok (volume, _clean (re_search ENGINE_TYPE_RE false raw))
           | _ => Ok (None, None)
           end;
  seller_name ←
    (if list_mem (lit "Проверенный продавец") text_lines
     then catch (i ← list_index (lit "Проверенный продавец") text_lines;
                 if bool_decide (i + 1 < length text_lines)%nat
                 then x ← list_get text_lines (i + 1); Ok (_clean (Some x))
                 else Ok None)
                value_or_index_error (Ok None)
     else Ok None);
  options ←
    (if list_mem (lit "Опции и характеристики") text_lines
     then catch (i ← list_index (lit "Опции и характеристики") text_lines;
                 let stop := Nat.min (i + 20) (length text_lines) in
                 let opts :=
                   collect_opts isupper [lit "Город"; lit "Поколение"; lit "Кузов"]
                     (take (stop - (i + 1)) (drop (i + 1) text_lines)) in
                 Ok (match opts with
                     | [] => None
                     | _ :: _ => _clean (Some (join (lit "; ") opts))
                     end, opts))
                value_or_index_error (Ok (None, []))
     else Ok (None, []));
  let photos := dedupe [] (collect_photos (find_all_img html)) in
  let parts := match title with Some t => split_ws t | None => [] end in
  let make_model :=
    match parts with
    | p0 :: p1 :: _ => (Some p0, Some p1)
    | _ => (None, None)
    end in
  let trim :=
    match parts with
    | _ :: _ :: rest => find_trim [lit "г."; lit "год"; lit "year"] rest
    | _ => None
    end in
  car_year ← match title with
             | Some t =>
               match re_search YEAR_RE false t with
               | Some g =>
                 catch (n ← py_int g; Ok (Some n))
                       value_or_attribute_error (Ok None)
               | None => Ok None
               end
             | None => Ok None
             end;
  Ok {| listing_id := listing_id;
        url := url;
        title := title;
        price_kzt := price_kzt;
        city := city;
        region := region;
        make := make_model.1;
        model := make_model.2;
        generation := generation;
        trim := trim;
        car_year := car_year;
        mileage_km := mileage_km;
        body_type := body_type;
        engine_volume_l := engine.1;
        engine_type := engine.2;
        transmission := transmission;
        drivetrain := drivetrain;
        steering := steering;
        color := color;
        customs_cleared := customs_cleared;
        seller_name := seller_name;
        seller_type := if truthy seller_name then lit "dealer" else lit "private";
        options_text := options.1;
        options_list := options.2;
        photos := photos;
        photo_count := Z.of_nat (length photos) |}.

End Extractor.

End Parse.

(** ** Fetch worker: one listing, and the batch loop *)

Module Fetch.
Import Listing Queue.

(** What the world outside the process does while one queue entry is
    handled: the clock readings, the outcome of the navigation (status and
    HTML, or the exception that escaped the fallbacks), and whether the
    archive write and the two queue updates of the loop body succeed. *)
Record world : Type := mkWorld {
  w_attempt_at : Z;
  w_mark_attempt : result unit;
  w_navigate : result (Z * pystr);
  w_fetched_at : Z;
  w_archive : result unit;
  w_today : Z;
  w_update_state : result unit;
  w_retry_at : Z;
}.

(** [str(e)]. *)
Definition exn_message (e : exn) : pystr :=
  match e with
  | ValueError => lit "ValueError"
  | IndexError => lit "IndexError"
  | AttributeError => lit "AttributeError"
  | KeyError => lit "KeyError"
  | OverflowError => lit "int too large to convert to float"
  | BlockingDetectedError => lit "Blocking detected"
  | OtherException msg => msg
  end.

Section Worker.

(** The callees, with their library parameters fixed by the caller:
    [detect_blocking], [parse_listing] and [upsert_silver] (which receives
    [date.today()] first). *)
Variable detect_blocking : pystr -> pystr -> bool * option pystr.
Variable parse_listing : pystr -> pystr -> Z -> result listing.
Variable upsert_silver : Z -> listing -> Silver.datetime -> Silver.db -> result Silver.db.

(** The body of the outer [try] of [fetch_single_listing], called with
    [use_db=True, use_s3=True].  Silver is written only by
    [mark_silver_inactive] and by [upsert_silver], each just before a
    return, so a raise leaves it as it was. *)
Definition fetch_body (w : world) (listing_id : Z) (url : pystr)
    (s : Silver.db) : result (Silver.db * option listing) :=
  '(status, html) ← w_navigate w;
  if (detect_blocking html url).1 then Raise BlockingDetectedError
  else
    _ ← w_archive w;
    if status =? 404
    then Ok (Silver.mark_silver_inactive (w_today w) listing_id s, None)
    else if 400 <=? status
    then Raise (OtherException
                  (lit "HTTP " ++ str_of_int status ++ lit " for " ++ url))
    else
      parsed ← parse_listing html url listing_id;
      s' ← upsert_silver (w_today w) parsed
             {| Silver.instant := w_fetched_at w; Silver.tzinfo := Some 0 |} s;
      Ok (s', Some parsed).

(** [fetch_single_listing]: [except BlockingDetectedError: raise] and
    [except Exception: ... return None]. *)
Definition fetch_single_listing (w : world) (listing_id : Z) (url : pystr)
    (s : Silver.db) : result (Silver.db * option listing) :=
  match fetch_body w listing_id url s with
  | Ok out => Ok out
  | Raise BlockingDetectedError => Raise BlockingDetectedError
  | Raise _ => Ok (s, None)
  end.

Record state : Type := mkState {
  queue : table;
  silver : Silver.db;
  processed_count : Z;
}.

(** The [try] block of the batch loop for one item; the queue updates take
    effect when the storage accepts them. *)
Definition item_body (w : world) (listing_id : Z) (url : pystr) (st : state)
    : state * result unit :=
  match w_mark_attempt w with
  | Raise e => (st, Raise e)
  | Ok _ =>
    let q1 := mark_attempt (w_attempt_at w) listing_id (queue st) in
    match fetch_single_listing w listing_id url (silver st) with
    | Raise e =>
      ({| queue := q1; silver := silver st;
          processed_count := processed_count st |}, Raise e)
    | Ok (s', parsed) =>
      let st1 := {| queue := q1; silver := s';
                    processed_count := processed_count st |} in
      match w_update_state w with
      | Raise e => (st1, Raise e)
      | Ok _ =>
        match parsed with
        | Some _ =>
          ({| queue := update_state listing_id FETCHED 200 None q1;
              silver := s';
              processed_count := processed_count st + 1 |}, Ok ())
        | None =>
          ({| queue := update_state listing_id INACTIVE 404 None q1;
              silver := s';
              processed_count := processed_count st |}, Ok ())
        end
      end
    end
  end.

(** One iteration of the loop: the state after it, and whether the loop
    goes on ([true]) or breaks. *)
Definition process_item (w : world) (item : Z * pystr * Z) (st : state)
    : state * bool :=
  let '(listing_id, url, attempts) := item in
  match item_body w listing_id url st with
  | (st', Ok _) => (st', true)
  | (st', Raise BlockingDetectedError) =>
    ({| queue := schedule_retry (w_retry_at w) listing_id (attempts + 1) 0
                   (lit "Blocking detected") (queue st');
        silver := silver st';
        processed_count := processed_count st' |}, false)
  | (st', Raise e) =>
    ({| queue := schedule_retry (w_retry_at w) listing_id (attempts + 1) 0
                   (exn_message e) (queue st');
        silver := silver st';
        processed_count := processed_count st' |}, true)
  end.

(** The [for] loop over the claimed items. *)
Fixpoint process_items (env : Z -> world) (items : list (Z * pystr * Z))
    (st : state) : state :=
  match items with
  | [] => st
  | item :: rest =>
    let '(st', go_on) := process_item (env item.1.1) item st in
    if go_on then process_items env rest st' else st'
  end.

End Worker.

End Fetch.

(** ** Claiming a batch: row locks and the claim transaction *)

Module Claim.
Import Queue.

(** The queue table together with its row locks: which transaction holds
    the [FOR UPDATE] lock of a row, if any. *)
Record store : Type := mkStore {
  rows : table;
  locks : gmap Z nat;
}.

Definition claimable (tx : nat) (now : Z) (lk : gmap Z nat)
    (row : Z * entry) : bool :=
  eligible now row.2 &&
  match lk !! row.1 with
  | None => true
  | Some owner => bool_decide (owner = tx)
  end.

Definition lock_all (tx : nat) (ids : list Z) (lk : gmap Z nat) : gmap Z nat :=
  foldr (fun i l => <[i := tx]> l) lk ids.

(** [SELECT listing_id, url, attempts FROM ctl.scrape_queue WHERE ... LIMIT n
     FOR UPDATE SKIP LOCKED], run by transaction [tx]: the first [n] rows
    that satisfy the WHERE clause and are not locked by another transaction
    are locked and returned; rows locked by others are passed over without
    waiting. *)
Definition select_for_update_skip_locked (tx : nat) (now : Z) (n : nat)
    (st : store) : store * list (Z * pystr * Z) :=
  let chosen :=
    take n (filter (fun row => claimable tx now (locks st) row = true)
                   (map_to_list (rows st))) in
  ({| rows := rows st; locks := lock_all tx chosen.*1 (locks st) |},
   (fun row => (row.1, url row.2, attempts row.2)) <$> chosen).

(** [conn.commit()] at the exit of [wh_conn()]: the transaction ends and its
    row locks are released. *)
Definition commit (tx : nat) (st : store) : store :=
  {| rows := rows st; locks := filter (fun kv => kv.2 ≠ tx) (locks st) |}.

(** The claim step of [fetch_and_process_batch]: the [with wh_conn()] block
    holds only the SELECT, and commits when it is left. *)
Definition claim_batch (tx : nat) (now : Z) (batch_size : nat) (st : store)
    : store * list (Z * pystr * Z) :=
  let '(st', items) := select_for_update_skip_locked tx now batch_size st in
  (commit tx st', items).

Definition claimed_ids (items : list (Z * pystr * Z)) : list Z := items.*1.*1.

End Claim.

(** ** Sample data, after the fixtures of the integration tests *)

Module Fixtures.
Import Listing Silver.

Definition test_listing (price : option Z) : listing :=
  {| listing_id := 888888888;
     url := lit "https://kolesa.kz/a/show/888888888";
     title := Some (lit "Test Car 2020");
     price_kzt := price;
     city := Some (lit "Алматы");
     region := Some (lit "Алматы");
     make := Some (lit "Toyota");
     model := Some (lit "Camry");
     generation := None;
     trim := None;
     car_year := Some 2020;
     mileage_km := Some 50000;
     body_type := Some (lit "Седан");
     engine_volume_l := Some (Float64 4612811918334230528);
     engine_type := Some (lit "бензин");
     transmission := Some (lit "Автомат");
     drivetrain := Some (lit "Передний");
     steering := Some (lit "Левый");
     color := Some (lit "Белый");
     customs_cleared := Some true;
     seller_name := None;
     seller_type := lit "private";
     options_text := Some (lit "Test options");
     options_list := [lit "Test option 1"];
     photos := [lit "https://example.com/photo1.jpg"];
     photo_count := 1 |}.

(** Stand-ins for the library functions, for evaluating examples. *)
Definition json_stub_listing (l : listing) : pystr := str_of_int (listing_id l).
Definition json_stub_photos (ps : list pystr) : pystr := concat ps.
Definition sha_stub (s : pystr) : pystr := s.

Definition empty_db : db := {| current := ∅; daily := ∅; events := [] |}.

(** 2024-01-01 00:00:00 UTC and the day number of that date. *)
Definition t0 : Z := 1704067200000000.
Definition d0 : Z := 19723.

Definition utc (t : Z) : datetime := {| instant := t; tzinfo := Some 0 |}.

(** The database after a first upsert at price 12,000,000. *)
Definition db_after_first : db :=
  match upsert_silver json_stub_listing json_stub_photos sha_stub d0
          (test_listing (Some 12000000)) (utc t0) empty_db with
  | Ok s => s
  | Raise _ => empty_db
  end.

(** One hour later, at price 12,500,000; and once more at the same price. *)
Definition upsert_stub := upsert_silver json_stub_listing json_stub_photos sha_stub.

Definition db_after_second : db :=
  match upsert_stub d0 (test_listing (Some 12500000)) (utc (t0 + 60 * Queue.minute))
          db_after_first with
  | Ok s => s
  | Raise _ => empty_db
  end.

Definition db_after_third : db :=
  match upsert_stub d0 (test_listing (Some 12500000)) (utc (t0 + 120 * Queue.minute))
          db_after_second with
  | Ok s => s
  | Raise _ => empty_db
  end.

(** Stand-ins for the Unicode tables and the regular-expression engine:
    non-ASCII characters are kept by [lower], and a pattern of literal words
    joined by [.*] is matched word by word within one line. *)
Definition lower_stub (before : pystr) (c : N) (after : pystr) : pystr := [c].

Fixpoint split_dotstar (cur : pystr) (p : pystr) : list pystr :=
  match p with
  | [] => [rev cur]
  | 46%N :: 42%N :: rest => rev cur :: split_dotstar [] rest
  | c :: rest => split_dotstar (c :: cur) rest
  end.

Definition lit_then (w : pystr) (k : pystr -> bool) (s : pystr) : bool :=
  match Py.strip_prefix w s with
  | Some r => k r
  | None => false
  end.

Fixpoint dotstar_then (k : pystr -> bool) (s : pystr) : bool :=
  k s ||
  match s with
  | [] => false
  | c :: r => if (c =? 10)%N then false else dotstar_then k r
  end.

Fixpoint words_matcher (ws : list pystr) : pystr -> bool :=
  match ws with
  | [] => fun _ => true
  | w :: rest =>
    match rest with
    | [] => lit_then w (fun _ => true)
    | _ :: _ => lit_then w (dotstar_then (words_matcher rest))
    end
  end.

Fixpoint search_from (m : pystr -> bool) (s : pystr) : bool :=
  m s ||
  match s with
  | [] => false
  | _ :: r => search_from m r
  end.

Definition re_stub (pattern text : pystr) : bool :=
  search_from (words_matcher (split_dotstar [] pattern)) text.

Definition detect_stub := Blocking.detect_blocking lower_stub re_stub.

(** A page padded with spaces to a given length. *)
Definition pad_to (n : nat) (s : pystr) : pystr :=
  s ++ repeat 32%N (n - length s).

Definition captcha_page : pystr :=
  pad_to (Z.to_nat 3000) (lit "<html><body><h1>Please solve the captcha to continue</h1></body></html>").

Definition normal_page : pystr :=
  pad_to (Z.to_nat 50000)
    (lit "<html><head><title>Toyota Camry 2020</title></head><body><h1>Toyota Camry 2020 г.</h1><div>12 500 000 ₸</div></body></html>").

Definition challenge_page : pystr :=
  pad_to (Z.to_nat 50000) (lit "<html><body>Checking your browser before accessing kolesa.kz</body></html>").

(** Stand-ins for the HTML parser and the conversions, for evaluating the
    extractor on plain text: the page text is the input itself, there is no
    heading and no image, no pattern matches. *)
Definition parse_stub :=
  Parse.parse_listing (fun html => html) (fun _ => None) (fun _ => [])
    (fun _ _ _ => None) (fun _ _ => false) (fun _ => None) (fun _ => None)
    (fun _ => false) lower_stub.

Definition customs_page (answer : pystr) : pystr :=
  lit "Город" ++ [10%N] ++ lit "  Алматы " ++ [10%N] ++
  lit "Растаможен в Казахстане" ++ [10%N] ++ answer ++ [10%N].

(** A queue with two new entries, and a server that answers the first with
    HTTP 500 and an ordinary error page. *)
Definition url_of (listing_id : Z) : pystr :=
  Discover.listing_url (lit "https://kolesa.kz") listing_id.

Definition queue_two : Queue.table :=
  {[ 101 := Queue.new_row (url_of 101); 102 := Queue.new_row (url_of 102) ]}.

Definition error_page : pystr :=
  lit "<html><body><h1>500 Internal Server Error</h1></body></html>".

Definition world_http (status : Z) (html : pystr) : Fetch.world :=
  {| Fetch.w_attempt_at := t0;
     Fetch.w_mark_attempt := Ok ();
     Fetch.w_navigate := Ok (status, html);
     Fetch.w_fetched_at := t0 + 5000000;
     Fetch.w_archive := Ok ();
     Fetch.w_today := d0;
     Fetch.w_update_state := Ok ();
     Fetch.w_retry_at := t0 + 6000000 |}.

Definition process_items_stub :=
  Fetch.process_items detect_stub parse_stub upsert_stub.

Definition state0 : Fetch.state :=
  {| Fetch.queue := queue_two; Fetch.silver := empty_db;
     Fetch.processed_count := 0 |}.

Definition store_two : Claim.store :=
  {| Claim.rows := queue_two; Claim.locks := ∅ |}.

End Fixtures.

(** ** The fetch entry point as a whole, and the task that drives it *)

Module Batch.
Import Queue Fetch Claim.

Section Entry.

Variable detect_blocking : pystr -> pystr -> bool * option pystr.
Variable parse_listing : pystr -> pystr -> Z -> result Listing.listing.
Variable upsert_silver :
  Z -> Listing.listing -> Silver.datetime -> Silver.db -> result Silver.db.

(** [fetch_and_process_batch(batch_size)], run by transaction [tx] at time
    [now]: the claim block, the early [return 0] on an empty claim, the loop.
    The queue with its locks and Silver are threaded through; the result is
    [processed_count]. *)
Definition fetch_and_process_batch (tx : nat) (now : Z) (env : Z -> world)
    (batch_size : nat) (st : store) (sv : Silver.db) : store * Silver.db * Z :=
  let '(st1, items) := claim_batch tx now batch_size st in
  match items with
  | [] => (st1, sv, 0)
  | _ :: _ =>
    let out :=
      process_items detect_blocking parse_listing upsert_silver env items
        {| queue := rows st1; silver := sv; processed_count := 0 |} in
    ({| rows := queue out; locks := locks st1 |}, silver out, processed_count out)
  end.

End Entry.

Section Task.

(** The state the task runs in, and one call of
    [fetch_and_process_batch(current_batch_size)] on it. *)
Variable S : Type.
Variable run_batch : Z -> S -> S * Z.

(** The [while remaining_to_process > 0] loop of the [fetch_details] task,
    with [batch_size = 5]; [fuel] bounds the number of iterations.  The
    result is the final state, [total_processed] and [batch_num]. *)
Fixpoint fetch_details_loop (fuel : nat) (remaining total batch_num : Z) (s : S)
    : option (S * Z * Z) :=
  if remaining <=? 0 then Some (s, total, batch_num)
  else
    match fuel with
    | O => None
    | Datatypes.S fuel' =>
      let current_batch_size := Z.min 5 remaining in
      let '(s', processed) := run_batch current_batch_size s in
      let total := total + processed in
      if processed =? 0 then Some (s', total, batch_num)
      else fetch_details_loop fuel' (remaining - processed) total (batch_num + 1) s'
    end.

(** The loop as the task starts it, and the dict it returns:
    [fetched_ok] and [batches]. *)
Definition fetch_details (fuel : nat) (discovered_count : Z) (s : S)
    : option (S * Z * Z) :=
  match fetch_details_loop fuel discovered_count 0 1 s with
  | Some (s', total, batch_num) => Some (s', total, batch_num - 1)
  | None => None
  end.

End Task.

End Batch.

(** ** Discovery without the queue *)

Module Scan.
Import Discover.

(** [discover_pages(page_from, page_to)]: the same page loop, returning the
    number of distinct ids found. *)
Definition discover_pages (fetch : Z -> page_outcome) (page_from page_to : Z) : Z :=
  Z.of_nat (size (scan_loop fetch (page_range page_from page_to) ∅)).

End Scan.

(** ** View-count enrichment of today's snapshots *)

Module Views.
Import Silver.

(** [SELECT listing_id FROM silver.listing_snapshot_daily
     WHERE snapshot_date = today AND views IS NULL]. *)
Definition ids_to_fetch (today : Z) (t : gmap (Z * Z) daily_row) : list Z :=
  (fun kv => kv.1.1) <$>
    filter (fun kv => kv.1.2 = today /\ d_views kv.2 = None) (map_to_list t).

(** [range(0, stop, step)]: [ValueError] for a zero step. *)
Definition range_step (stop : nat) (step : Z) : result (list nat) :=
  if step =? 0 then Raise ValueError
  else if step <? 0 then Ok []
  else
    let k := Z.to_nat step in
    Ok ((fun j => (j * k)%nat) <$> seq 0 ((stop + k - 1) `div` k)%nat).

(** [[ids[i:i + batch_size] for i in range(0, len(ids), batch_size)]]. *)
Definition chunks (batch_size : Z) (ids : list Z) : result (list (list Z)) :=
  match range_step (length ids) batch_size with
  | Raise e => Raise e
  | Ok starts =>
    Ok (map (fun i => take (Z.to_nat batch_size) (drop i ids)) starts)
  end.

(** [UPDATE silver.listing_snapshot_daily SET views = %s
     WHERE listing_id = %s AND snapshot_date = %s]. *)
Definition set_views (view_count listing_id today : Z)
    (t : gmap (Z * Z) daily_row) : gmap (Z * Z) daily_row :=
  alter (fun r =>
    {| d_price_kzt := d_price_kzt r; d_is_active := d_is_active r;
       d_views := Some view_count; d_photo_count := d_photo_count r |})
    (listing_id, today) t.

(** [cur.executemany(...)] over the [updates] of one chunk. *)
Definition apply_updates (updates : list (Z * Z * Z))
    (t : gmap (Z * Z) daily_row) : gmap (Z * Z) daily_row :=
  foldl (fun t u => set_views u.1.1 u.1.2 u.2 t) t updates.

End Views.

(** ** Run statistics *)

Module Stats.

(** A [StatsCollector]: the two [defaultdict(int)] counters and the error
    list. *)
Record collector : Type := mkCollector {
  counts : gmap string Z;
  status_codes : gmap Z Z;
  errors : list pystr;
}.

(** [d[key]] on a [defaultdict(int)] that is only read. *)
Definition get {K} `{Countable K} (d : gmap K Z) (key : K) : Z :=
  default 0 (d !! key).

(** [d[key] += n]. *)
Definition add {K} `{Countable K} (key : K) (n : Z) (d : gmap K Z) : gmap K Z :=
  <[key := get d key + n]> d.

(** [reset()], which [__init__] calls. *)
Definition reset : collector :=
  {| counts := <["discovered" := 0]> (<["fetched" := 0]> (<["parsed" := 0]>
                (<["failed" := 0]> (<["blocked" := 0]>
                (<["duplicates" := 0]> ∅)))));
     status_codes := ∅;
     errors := [] |}%string.

Definition record_discovered (count : Z) (c : collector) : collector :=
  if count <? 0 then c
  else {| counts := add "discovered"%string count (counts c);
          status_codes := status_codes c; errors := errors c |}.

Definition record_fetched (status_code : Z) (c : collector) : collector :=
  {| counts := add "fetched"%string 1 (counts c);
     status_codes := add status_code 1 (status_codes c);
     errors := errors c |}.

Definition record_parsed (c : collector) : collector :=
  {| counts := add "parsed"%string 1 (counts c);
     status_codes := status_codes c; errors := errors c |}.

Definition record_failed (error : pystr) (c : collector) : collector :=
  {| counts := add "failed"%string 1 (counts c);
     status_codes := status_codes c; errors := errors c ++ [error] |}.

Definition record_blocked (c : collector) : collector :=
  {| counts := add "blocked"%string 1 (counts c);
     status_codes := status_codes c; errors := errors c |}.

Definition record_duplicate (c : collector) : collector :=
  {| counts := add "duplicates"%string 1 (counts c);
     status_codes := status_codes c; errors := errors c |}.

(** A call of one of the recording methods. *)
Inductive call : Type :=
  | Discovered (count : Z)
  | Fetched (status_code : Z)
  | Parsed
  | Failed (error : pystr)
  | Blocked
  | Duplicate.

Definition apply_call (c : collector) (k : call) : collector :=
  match k with
  | Discovered n => record_discovered n c
  | Fetched s => record_fetched s c
  | Parsed => record_parsed c
  | Failed e => record_failed e c
  | Blocked => record_blocked c
  | Duplicate => record_duplicate c
  end.

(** A collector after a sequence of calls on a fresh one. *)
Definition after (calls : list call) : collector := foldl apply_call reset calls.

(** [errors[-10:] if errors else []]. *)
Definition recent_errors (c : collector) : list pystr :=
  drop (length (errors c) - 10) (errors c).

(** [get_summary()]: counts, histogram, [error_count], [recent_errors]. *)
Definition get_summary (c : collector)
    : gmap string Z * gmap Z Z * Z * list pystr :=
  (counts c, status_codes c, Z.of_nat (length (errors c)), recent_errors c).

(** The sum of the histogram's values. *)
Definition histogram_total (h : gmap Z Z) : Z :=
  map_fold (fun _ v acc => v + acc) 0 h.

End Stats.

(** ** Keys of stored price events *)

(** The (listing, timestamp) pair on which [event_conflicts] compares. *)
Definition event_key (e : Silver.price_event) : Z * Z :=
  (Silver.e_listing_id e, Silver.e_event_ts e).

(** ** The title pattern, spelled out *)

(** A page on which [<title[^>]*>([^<]+)</title>] matches with group [g] at
    the position after [a]: [x] is what [[^>]*] consumes. *)
Definition title_shape (s a x g b : pystr) : Prop :=
  s = a ++ lit "<title" ++ x ++ [62%N] ++ g ++ lit "</title>" ++ b /\
  (62%N ∉ x) /\ (60%N ∉ g) /\ g <> [].

(** ** Words of a white-space split

    A non-empty string without white space, as [str.split()] returns. *)
Definition word (w : pystr) : Prop := Py.nospace w = true /\ w <> [].

(** ** Sample inputs for the properties *)

Module Samples.
Import Listing Silver Fixtures.


(** A site whose second result page is blocked. *)
Definition pages_sample (page : Z) : Discover.page_outcome :=
  if page =? 1 then Discover.PageIds {[101; 102]}
  else if page =? 2 then Discover.PageBlocked
  else Discover.PageIds {[103]}.

(** A task state that only counts the pending entries, and a batch that
    fetches as many as it is asked for while any are left. *)
Definition run_batch_sample (n : Z) (pending : Z) : Z * Z :=
  let k := Z.max 0 (Z.min n pending) in (pending - k, k).

(** A page of 20,000 characters with a plain title and blocking keywords in
    its body. *)
Definition large_page : pystr :=
  pad_to (Z.to_nat 20000)
    (lit "<html><head><title>Cars</title></head><body>challenge cf-ray checking verify</body></html>").

(** A small listing page, the record the extractor returns for it, and the
    database after its upsert. *)
Definition listing_page : pystr := customs_page (lit "Да").

Definition listing_sample : listing :=
  match parse_stub listing_page (url_of 101) 101 with
  | Ok l => l
  | Raise _ => test_listing None
  end.

Definition db_fetched : db :=
  match upsert_stub d0 listing_sample (utc (t0 + 5000000)) empty_db with
  | Ok s => s
  | Raise _ => empty_db
  end.

(** The database after a first upsert with a view count stored for the day,
    and after a second fetch of the same listing on that day. *)
Definition db_enriched : db :=
  {| current := current db_after_first;
     daily := Views.set_views 57 888888888 d0 (daily db_after_first);
     events := events db_after_first |}.

Definition db_refetched : db :=
  match upsert_stub d0 (test_listing (Some 12000000)) (utc (t0 + 60 * Queue.minute))
          db_enriched with
  | Ok s => s
  | Raise _ => empty_db
  end.

End Samples.

(** * Properties *)

Section QueueFacts.
Import Queue.

Lemma pow2_pos (a : Z) : 0 <= a -> 1 <= 2 ^ a.
Proof. intros Ha. pose proof (Z.pow_pos_nonneg 2 a). lia. Qed.

Lemma backoff_minutes_le_day (a : Z) : backoff_minutes a <= 60 * 24.
Proof. unfold backoff_minutes. lia. Qed.

Lemma backoff_minutes_mono (a1 a2 : Z) :
  0 <= a1 -> a1 <= a2 -> backoff_minutes a1 <= backoff_minutes a2.
Proof.
  intros H0 H12. unfold backoff_minutes.
  assert (2 ^ a1 <= 2 ^ a2) by (apply Z.pow_le_mono_r; lia).
  lia.
Qed.

Lemma backoff_minutes_pos (a : Z) : 0 <= a -> 1 <= backoff_minutes a.
Proof. intros Ha. unfold backoff_minutes. pose proof (pow2_pos a Ha). lia. Qed.

Lemma schedule_retry_lookup (now listing_id att status : Z) (error : pystr)
    (q : table) (r : entry) :
  q !! listing_id = Some r ->
  schedule_retry now listing_id att status error q !! listing_id =
    Some {| url := url r; state := RETRY; attempts := att;
            last_attempt_at := last_attempt_at r;
            next_retry_at := Some (now + backoff_minutes att * minute);
            last_http_status := Some status;
            last_error := Some error |}.
Proof. intros Hq. unfold schedule_retry. by rewrite lookup_alter_eq, Hq. Qed.

(** C5. The backoff is min(2^a minutes, 1 day); it is monotone in the attempt
    count and never exceeds one day; and [schedule_retry] puts the row in
    state RETRY with [next_retry_at] equal to the current time plus the
    backoff of the attempt count it was given. *)
Theorem backoff_monotone_capped_and_scheduled
    (a1 a2 now listing_id att status : Z) (error : pystr) (q : table) (r : entry) :
  0 <= a1 -> a1 < a2 -> q !! listing_id = Some r ->
  backoff_minutes a1 * minute = Z.min (2 ^ a1 * minute) day /\
  backoff_minutes a1 <= backoff_minutes a2 /\
  backoff_minutes a2 * minute <= day /\
  exists r',
    schedule_retry now listing_id att status error q !! listing_id = Some r' /\
    state r' = RETRY /\
    next_retry_at r' = Some (now + backoff_minutes att * minute).
Proof.
  intros H0 H12 Hq. repeat split.
  - unfold backoff_minutes, day, minute. lia.
  - apply backoff_minutes_mono; lia.
  - pose proof (backoff_minutes_le_day a2). unfold day, minute. lia.
  - eexists. split; [by apply schedule_retry_lookup|]. done.
Qed.

Lemma backoff_monotone_capped_and_scheduled_witness :
  let q : table := {[ 101 := new_row (lit "https://kolesa.kz/a/show/101") ]} in
  Queue.backoff_minutes 3 * minute = Z.min (2 ^ 3 * minute) day /\
  backoff_minutes 3 <= backoff_minutes 12 /\
  backoff_minutes 12 * minute <= day /\
  exists r',
    schedule_retry 1000 101 3 0 (lit "boom") q !! 101 = Some r' /\
    state r' = RETRY /\
    next_retry_at r' = Some (1000 + backoff_minutes 3 * minute).
Proof.
  intros q.
  apply (backoff_monotone_capped_and_scheduled 3 12 1000 101 3 0 (lit "boom") q
           (new_row (lit "https://kolesa.kz/a/show/101"))).
  - lia.
  - lia.
  - reflexivity.
Defined.

End QueueFacts.

Section EnqueueFacts.
Import Queue Discover.

Lemma enqueue_table (listing_id : Z) (u : pystr) (q : table) :
  (enqueue listing_id u q).1 = <[listing_id := default (new_row u) (q !! listing_id)]> q.
Proof.
  unfold enqueue. destruct (q !! listing_id) as [r|] eqn:Hq; simpl; [|done].
  symmetry. by apply insert_id.
Qed.

Lemma enqueue_rowcount (listing_id : Z) (u : pystr) (q : table) :
  (enqueue listing_id u q).2 = if q !! listing_id is Some _ then 0 else 1.
Proof. unfold enqueue. by destruct (q !! listing_id). Qed.

Lemma fresh_rows_cons (base_url : pystr) (i : Z) (ids : list Z) :
  fresh_rows base_url (i :: ids) =
    <[i := new_row (listing_url base_url i)]> (fresh_rows base_url ids).
Proof. reflexivity. Qed.

Lemma fresh_rows_dom (base_url : pystr) (ids : list Z) :
  dom (fresh_rows base_url ids) = (list_to_set ids : gset Z).
Proof.
  induction ids as [|i ids IH]; [apply dom_empty_L|].
  rewrite fresh_rows_cons, dom_insert_L, IH. reflexivity.
Qed.

Lemma insert_ids_spec (base_url : pystr) (ids : list Z) :
  NoDup ids -> forall (q : table) (k : Z),
  insert_ids base_url ids q k =
    (q ∪ fresh_rows base_url ids,
     k + Z.of_nat (size (list_to_set ids ∖ dom q : gset Z))).
Proof.
  induction 1 as [|i ids Hi Hnd IH]; intros q k.
  - simpl. unfold fresh_rows. simpl. rewrite (right_id_L ∅ (∪)).
    replace (∅ ∖ dom q : gset Z) with (∅ : gset Z) by set_solver.
    rewrite size_empty. f_equal. lia.
  - cbn [insert_ids]. unfold enqueue.
    assert (Hi' : i ∉ (list_to_set ids : gset Z)) by (by rewrite elem_of_list_to_set).
    destruct (q !! i) as [r|] eqn:Hq.
    + rewrite IH. f_equal.
      * rewrite fresh_rows_cons.
        apply map_eq. intros j. rewrite !lookup_union.
        destruct (decide (i = j)) as [->|Hne].
        -- rewrite lookup_insert_eq, Hq. by destruct (fresh_rows base_url ids !! j).
        -- by rewrite lookup_insert_ne.
      * assert (Hd : i ∈ dom q) by (apply elem_of_dom; eauto).
        replace (list_to_set (i :: ids) ∖ dom q : gset Z)
          with (list_to_set ids ∖ dom q : gset Z) by set_solver.
        lia.
    + rewrite IH. f_equal.
      * rewrite fresh_rows_cons.
        rewrite <- insert_union_l. by rewrite <- insert_union_r.
      * assert (Hd : i ∉ dom q) by (by apply not_elem_of_dom).
        rewrite dom_insert_L.
        replace (list_to_set (i :: ids) ∖ dom q : gset Z)
          with ({[i]} ∪ (list_to_set ids ∖ ({[i]} ∪ dom q)) : gset Z) by set_solver.
        pose proof (size_union (C:=gset Z) {[i]} (list_to_set ids ∖ ({[i]} ∪ dom q))) as Hsz.
        rewrite size_singleton in Hsz. rewrite Hsz by set_solver. lia.
Qed.

End EnqueueFacts.

Section DiscoverFacts.
Import Queue Discover.

(** C9. Enqueue inserts a NEW row when the id is absent and leaves the table
    as it is otherwise, so an existing row keeps its state and attempts; a
    second enqueue of the same id changes nothing and the id has one row;
    and the discovery entry point returns the number of discovered ids that
    were not in the queue, keeps every existing row, and has a row for every
    discovered id afterwards. *)
Theorem enqueue_idempotent_and_counted
    (base_url : pystr) (fetch : Z -> page_outcome) (page_from page_to : Z)
    (listing_id : Z) (u u' : pystr) (q : table) :
  let q1 := (enqueue listing_id u q).1 in
  let all_ids := scan_loop fetch (page_range page_from page_to) ∅ in
  let out := discover_pages_to_db base_url fetch page_from page_to q in
  q1 = <[listing_id := default (new_row u) (q !! listing_id)]> q /\
  (enqueue listing_id u q).2 = (if q !! listing_id is Some _ then 0 else 1) /\
  enqueue listing_id u' q1 = (q1, 0) /\
  size q1 = size (dom q ∪ {[listing_id]}) /\
  out.2 = Z.of_nat (size (all_ids ∖ dom q)) /\
  q ⊆ out.1 /\
  out.1 = q ∪ fresh_rows base_url (elements all_ids) /\
  dom out.1 = dom q ∪ all_ids.
Proof.
  intros q1 all_ids out.
  assert (Hq1 : q1 = <[listing_id := default (new_row u) (q !! listing_id)]> q)
    by apply enqueue_table.
  assert (Hout : out = (q ∪ fresh_rows base_url (elements all_ids),
                        Z.of_nat (size (all_ids ∖ dom q)))).
  { unfold out, discover_pages_to_db. fold all_ids.
    destruct (decide (all_ids = ∅)) as [He|Hne].
    - rewrite He, elements_empty. unfold fresh_rows. simpl.
      rewrite (right_id_L ∅ (∪)).
      replace (∅ ∖ dom q : gset Z) with (∅ : gset Z) by set_solver.
      by rewrite size_empty.
    - rewrite insert_ids_spec by apply NoDup_elements.
      by rewrite list_to_set_elements_L. }
  split; [exact Hq1|]. split; [apply enqueue_rowcount|].
  split.
  { unfold enqueue at 1. rewrite Hq1, lookup_insert_eq. by rewrite <- Hq1. }
  split.
  { rewrite <- size_dom, Hq1, dom_insert_L. f_equal. set_solver. }
  rewrite Hout. simpl. split; [done|]. split; [apply map_union_subseteq_l|].
  split; [done|].
  by rewrite dom_union_L, fresh_rows_dom, list_to_set_elements_L.
Qed.

End DiscoverFacts.

Section QueueExamples.
Import Queue Discover Fixtures.

Example backoff_values :
  map backoff_minutes [0; 1; 2; 10; 11; 40] = [1; 2; 4; 1024; 1440; 1440].
Proof. reflexivity. Qed.

(** Pages 1 and 2 yield ids, page 3 fails, page 4 is empty and ends the
    scan; entry 101 is already queued (and has been retried), so two of the
    three discovered ids are inserted and 101 keeps its row. *)
Example discover_counts_new_ids :
  let fetch := fun page : Z =>
    if page =? 1 then PageIds {[101; 102]}
    else if page =? 2 then PageIds {[102; 103]}
    else if page =? 3 then PageFailed (lit "timeout")
    else PageIds ∅ in
  let q := schedule_retry t0 101 2 0 (lit "boom") queue_two in
  let out := discover_pages_to_db (lit "https://kolesa.kz") fetch 1 50
               (delete 102 q) in
  out.2 = 2 /\ out.1 !! 101 = q !! 101 /\
  out.1 !! 103 = Some (new_row (url_of 103)) /\ size out.1 = 3%nat.
Proof. vm_compute. repeat split. Qed.

End QueueExamples.

Section SilverFacts.
Import Listing Silver.

Variable json_of_listing : listing -> pystr.
Variable json_of_photos : list pystr -> pystr.
Variable sha256_hex : pystr -> pystr.

Lemma float_of_int_exact (n : Z) : Z.abs n < 2 ^ 53 -> float_of_int n = Ok n.
Proof.
  intros Hn. unfold float_of_int, round_to_double.
  destruct (Z.ltb_spec (Z.abs n) (2 ^ 53)) as [_|Hge]; [|lia].
  assert (2 ^ 53 < 2 ^ 1024) by (apply Z.pow_lt_mono_r; lia).
  destruct (Z.leb_spec (2 ^ 1024) (Z.abs n)); [lia|done].
Qed.



Lemma round_to_double_abs (n : Z) :
  2 ^ 53 <= Z.abs n ->
  exists k q r,
    1 <= k /\ Z.abs n = q * 2 ^ k + r /\ 0 <= r < 2 ^ k /\
    2 ^ 52 <= q < 2 ^ 53 /\
    Z.abs (round_to_double n) =
      (if r <? 2 ^ (k - 1) then q
       else if 2 ^ (k - 1) <? r then q + 1
       else if Z.even q then q else q + 1) * 2 ^ k.
Proof.
  intros Ha. set (a := Z.abs n) in *.
  assert (Hpos : 0 < a) by (assert (0 < 2 ^ 53) by reflexivity; lia).
  pose proof (Z.log2_spec a Hpos) as [Hlo Hhi].
  assert (HL : 53 <= Z.log2 a).
  { change 53 with (Z.log2 (2 ^ 53)). by apply Z.log2_le_mono. }
  set (k := Z.log2 a - 52).
  assert (Hk : 1 <= k) by (unfold k; lia).
  assert (Hpk : 0 < 2 ^ k) by (apply Z.pow_pos_nonneg; lia).
  assert (HLk : 2 ^ Z.log2 a = 2 ^ 52 * 2 ^ k).
  { rewrite <- Z.pow_add_r by lia. f_equal. unfold k. lia. }
  assert (HLk' : 2 ^ Z.succ (Z.log2 a) = 2 ^ 53 * 2 ^ k).
  { rewrite <- Z.pow_add_r by lia. f_equal. unfold k. lia. }
  exists k, (a / 2 ^ k), (a mod 2 ^ k).
  pose proof (Z.div_mod a (2 ^ k) ltac:(lia)) as Hdm.
  pose proof (Z.mod_pos_bound a (2 ^ k) Hpk) as Hr.
  split; [done|]. split; [lia|]. split; [done|]. split.
  - split.
    + apply Z.div_le_lower_bound; [done|]. lia.
    + apply Z.div_lt_upper_bound; [done|]. lia.
  - unfold round_to_double. fold a.
    destruct (Z.ltb_spec a (2 ^ 53)) as [|_]; [lia|]. fold k.
    set (q' := if _ <? _ then _ else _).
    assert (Hq : 2 ^ 52 <= a / 2 ^ k).
    { apply Z.div_le_lower_bound; [done|]. lia. }
    assert (Hq' : 0 <= q').
    { assert (0 < 2 ^ 52) by reflexivity. unfold q'. repeat case_match; lia. }
    rewrite Z.abs_mul. assert (Hs : Z.abs (Z.sgn n) = 1) by lia.
    rewrite Hs, (Z.abs_eq (q' * 2 ^ k)) by (apply Z.mul_nonneg_nonneg; lia). lia.
Qed.

(** [float(n)] raises exactly from 2^1024 - 2^970 on, the first magnitude
    that rounds to 2^1024. *)
Lemma float_raises_iff (n : Z) :
  float_raises n = true <-> 2 ^ 1024 - 2 ^ 970 <= Z.abs n.
Proof.
  assert (H53 : 2 ^ 53 < 2 ^ 1024 - 2 ^ 970) by (vm_compute; reflexivity).
  assert (Hiff : float_raises n = true <-> 2 ^ 1024 <= Z.abs (round_to_double n)).
  { unfold float_raises, float_of_int.
    destruct (Z.leb_spec (2 ^ 1024) (Z.abs (round_to_double n))); split; try done; lia. }
  rewrite Hiff. clear Hiff.
  destruct (Z.lt_ge_cases (Z.abs n) (2 ^ 53)) as [Hlt|Hge].
  - unfold round_to_double. destruct (Z.ltb_spec (Z.abs n) (2 ^ 53)); lia.
  - destruct (round_to_double_abs n Hge) as (k & q & r & Hk & Ha & Hr & Hq & ->).
    set (T := 2 ^ 970).
    assert (HT : 0 < T) by (apply Z.pow_pos_nonneg; lia).
    assert (H1024 : 2 ^ 1024 = 2 ^ 54 * T).
    { unfold T. rewrite <- Z.pow_add_r by lia. reflexivity. }
    rewrite H1024 in *. clear H1024 H53.
    assert (C52 : 2 ^ 52 = 4503599627370496) by reflexivity.
    assert (C53 : 2 ^ 53 = 9007199254740992) by reflexivity.
    assert (C54 : 2 ^ 54 = 18014398509481984) by reflexivity.
    rewrite C52, C53 in *. rewrite C54.
    destruct (Z.lt_trichotomy k 971) as [Hlow|[->|Hhigh]].
    + assert (Hle : 2 ^ k <= T) by (apply Z.pow_le_mono_r; lia).
      assert (Hpk : 0 < 2 ^ k) by (apply Z.pow_pos_nonneg; lia).
      set (P := 2 ^ k) in *.
      assert (Hq' : (if r <? 2 ^ (k - 1) then q
                     else if 2 ^ (k - 1) <? r then q + 1
                     else if Z.even q then q else q + 1) <= q + 1)
        by (repeat case_match; lia).
      set (q' := if _ <? _ then _ else _) in *.
      split; intros H; exfalso; nia.
    + assert (HP : 2 ^ 971 = 2 * T).
      { unfold T. change 971 with (1 + 970). by rewrite Z.pow_add_r by lia. }
      change (971 - 1) with 970. fold T. rewrite HP in *.
      destruct (Z.ltb_spec r T); [split; intros; nia|].
      destruct (Z.ltb_spec T r); [split; intros; nia|].
      assert (r = T) by lia. subst r.
      destruct (Z.even q) eqn:He.
      * apply Z.even_spec in He as [m ->]. split; intros; nia.
      * split; intros; nia.
    + assert (Hle : 2 * (2 * T) <= 2 ^ k).
      { replace (2 * (2 * T)) with (2 ^ 972).
        - apply Z.pow_le_mono_r; lia.
        - unfold T. change 972 with (1 + (1 + 970)). by rewrite !Z.pow_add_r by lia. }
      set (P := 2 ^ k) in *.
      assert (Hq' : q <= (if r <? 2 ^ (k - 1) then q
                     else if 2 ^ (k - 1) <? r then q + 1
                     else if Z.even q then q else q + 1))
        by (repeat case_match; lia).
      set (q' := if _ <? _ then _ else _) in *.
      split; intros _; nia.
Qed.


Lemma price_in_column_exact (p : Z) : price_in_column p -> float_of_int p = Ok p.
Proof.
  unfold price_in_column. intros Hp. apply float_of_int_exact.
  assert (10 ^ 12 < 2 ^ 53) by reflexivity. lia.
Qed.

Lemma price_event_step_same (l : listing) (fetched_at : datetime)
    (p : Z) (es : list price_event) :
  price_kzt l = Some p -> price_in_column p ->
  price_event_step l fetched_at (Some p) es = Ok es.
Proof.
  intros Hn Hp. unfold price_event_step. rewrite Hn.
  rewrite (price_in_column_exact _ Hp). simpl.
  by destruct (decide (p ≠ p)).
Qed.


End SilverFacts.

Section UpsertProperties.
Import Listing Silver.

Variable json_of_listing : listing -> pystr.
Variable json_of_photos : list pystr -> pystr.
Variable sha256_hex : pystr -> pystr.

Local Abbreviation upsert := (upsert_silver json_of_listing json_of_photos sha256_hex).




End UpsertProperties.

Section SilverExamples.
Import Listing Silver Fixtures Samples.

(** The price-event scenario of the spec: 12,000,000 then 12,500,000 gives
    one event; the same price again gives none. *)
Example price_event_scenario :
  events db_after_first = [] /\
  events db_after_second =
    [ {| e_listing_id := 888888888; e_event_ts := t0 + 60 * Queue.minute;
         e_old_price_kzt := 12000000; e_new_price_kzt := 12500000 |} ] /\
  events db_after_third = events db_after_second.
Proof. vm_compute. repeat split. Qed.

(** Beyond 2^53 the float comparison of [upsert_silver] no longer separates
    neighbouring integers. *)
Example float_of_int_rounds :
  float_of_int (2 ^ 53 + 1) = Ok (2 ^ 53) /\ float_of_int (2 ^ 53 + 3) = Ok (2 ^ 53 + 4).
Proof. vm_compute. split; reflexivity. Qed.







End SilverExamples.

Section StringFacts.
Import Py.

Lemma is_prefix_spec (p s : pystr) :
  is_prefix p s = true <-> exists r, s = p ++ r.
Proof.
  revert s. induction p as [|a p IH]; intros s; simpl.
  - split; [intros _; by exists s|done].
  - destruct s as [|b s]; simpl.
    + split; [done|]. intros [r Hr]. discriminate.
    + rewrite andb_true_iff, N.eqb_eq, IH. split.
      * intros [-> [r ->]]. by exists r.
      * intros [r Hr]. injection Hr as -> ->. eauto.
Qed.

Lemma contains_spec (needle hay : pystr) :
  contains needle hay = true <-> exists a b, hay = a ++ needle ++ b.
Proof.
  induction hay as [|c hay IH]; simpl.
  - rewrite orb_false_r, is_prefix_spec. split.
    + intros [r Hr]. by exists [], r.
    + intros [a [b Hab]]. destruct a; [by exists b|discriminate].
  - rewrite orb_true_iff, is_prefix_spec, IH. split.
    + intros [[r Hr]|[a [b Hab]]].
      * by exists [], r.
      * exists (c :: a), b. by rewrite Hab.
    + intros [a [b Hab]]. destruct a as [|c' a].
      * left. by exists b.
      * right. injection Hab as -> ->. by exists a, b.
Qed.

Lemma contains_infix (needle mid before after : pystr) :
  contains needle mid = true -> contains needle (before ++ mid ++ after) = true.
Proof.
  rewrite !contains_spec. intros [a [b ->]].
  exists (before ++ a), (b ++ after). by rewrite <- !app_assoc.
Qed.

Lemma strip_prefix_spec (p s r : pystr) :
  strip_prefix p s = Some r -> s = p ++ r.
Proof.
  revert s. induction p as [|a p IH]; intros s; simpl.
  - by intros [= ->].
  - destruct s as [|b s]; [done|].
    destruct (N.eqb_spec a b) as [->|]; [|done].
    intros H. by rewrite (IH _ H).
Qed.

Lemma take_until_app (stop : N) (s a b : pystr) :
  take_until stop s = (a, b) -> s = a ++ b.
Proof.
  revert a b. induction s as [|c s IH]; intros a b; simpl.
  - by intros [= <- <-].
  - destruct (c =? stop)%N; [by intros [= <- <-]|].
    destruct (take_until stop s) as [a' b'] eqn:Ht.
    intros [= <- <-]. simpl. by rewrite (IH a' b').
Qed.

Section LowerFacts.
Variable lower_nonascii : pystr -> N -> pystr -> pystr.

(** A run of characters that lower-casing leaves alone is copied as it is. *)
Lemma lower_from_stable (k before after : pystr) :
  forallb lower_stable k = true ->
  lower_from lower_nonascii before (k ++ after)
    = k ++ lower_from lower_nonascii (rev k ++ before) after.
Proof.
  revert before. induction k as [|c k IH]; intros before Hk; simpl.
  - done.
  - simpl in Hk. apply andb_true_iff in Hk as [Hc Hk].
    unfold lower_stable in Hc. apply andb_true_iff in Hc as [Hlt Hup].
    unfold lower_char, ascii_lower. rewrite Hlt.
    apply negb_true_iff in Hup. rewrite Hup. simpl.
    rewrite IH by done. by rewrite <- app_assoc.
Qed.

Lemma lower_from_keeps_stable (k a b before : pystr) :
  forallb lower_stable k = true ->
  exists pre post, lower_from lower_nonascii before (a ++ k ++ b) = pre ++ k ++ post.
Proof.
  intros Hk. revert before. induction a as [|c a IH]; intros before.
  - exists [], (lower_from lower_nonascii (rev k ++ before) b). simpl.
    by apply lower_from_stable.
  - simpl. destruct (IH (c :: before)) as [pre [post Heq]].
    exists (lower_char lower_nonascii before c (a ++ k ++ b) ++ pre), post.
    by rewrite Heq, <- app_assoc.
Qed.

Lemma contains_lower (k s : pystr) :
  forallb lower_stable k = true ->
  contains k s = true -> contains k (lower lower_nonascii s) = true.
Proof.
  intros Hk. rewrite !contains_spec. intros [a [b ->]].
  unfold lower. by apply lower_from_keeps_stable.
Qed.

End LowerFacts.

End StringFacts.

Section BlockingFacts.
Import Py Blocking.

Lemma title_at_infix (s g : pystr) :
  title_at s = Some g -> exists a b, s = a ++ g ++ b.
Proof.
  unfold title_at.
  destruct (strip_prefix (lit "<title") s) as [r|] eqn:Hp; [|done].
  apply strip_prefix_spec in Hp.
  destruct (take_until 62 r) as [x r1] eqn:H1. apply take_until_app in H1.
  destruct r1 as [|c r2]; [done|].
  destruct (take_until 60 r2) as [g' r3] eqn:H2. apply take_until_app in H2.
  destruct g' as [|c' g']; [done|].
  destruct (is_prefix (lit "</title>") r3); [|done].
  intros [= <-]. exists (lit "<title" ++ x ++ [c]), r3.
  rewrite Hp, H1, H2. by rewrite <- !app_assoc.
Qed.

Lemma title_search_infix (s g : pystr) :
  title_search s = Some g -> exists a b, s = a ++ g ++ b.
Proof.
  induction s as [|c s IH]; simpl.
  - intros H. vm_compute in H. discriminate.
  - destruct (title_at (c :: s)) as [g'|] eqn:Ht.
    + intros [= <-]. by apply title_at_infix.
    + intros H. destruct (IH H) as [a [b ->]]. by exists (c :: a), b.
Qed.

Lemma existsb_contains_false (kws : list pystr) (text part : pystr) :
  (exists a b, text = a ++ part ++ b) ->
  existsb (fun kw => contains kw text) kws = false ->
  existsb (fun kw => contains kw part) kws = false.
Proof.
  intros [a [b ->]]. induction kws as [|kw kws IH]; simpl; [done|].
  rewrite !orb_false_iff. intros [H1 H2]. split; [|by apply IH].
  destruct (contains kw part) eqn:Hc; [|done].
  by rewrite (contains_infix kw part a b Hc) in H1.
Qed.

End BlockingFacts.

Section DetectProperties.
Import Py Blocking.

Variable lower_nonascii : pystr -> N -> pystr -> pystr.
Variable re_search_icase : pystr -> pystr -> bool.

Local Abbreviation detect := (detect_blocking lower_nonascii re_search_icase).
Local Abbreviation lower' := (lower lower_nonascii).

Lemma short_keywords_stable (kw : pystr) :
  In kw short_keywords -> forallb lower_stable kw = true.
Proof.
  assert (H : forallb (forallb lower_stable) short_keywords = true)
    by (vm_compute; reflexivity).
  rewrite forallb_forall in H. apply H.
Qed.

Lemma detect_short_keyword (html url kw : pystr) :
  (len html < 5000)%Z -> In kw short_keywords ->
  contains kw (lower' html) = true ->
  detect html url =
    (true, Some (lit "Suspiciously short response with blocking keywords")).
Proof.
  intros Hlen Hin Hc. unfold detect_blocking.
  destruct (Z.ltb_spec (len html) 5000) as [_|]; [|lia].
  assert (He : existsb (fun keyword => contains keyword (lower' html))
                 short_keywords = true).
  { apply existsb_exists. by exists kw. }
  by rewrite He.
Qed.

Lemma first_pattern_none (ps : list (pystr * pystr)) (text : pystr) :
  (forall p, In p ps -> re_search_icase p.1 text = false) ->
  first_pattern re_search_icase ps text = None.
Proof.
  induction ps as [|[pattern reason] ps IH]; intros H; simpl; [done|].
  pose proof (H (pattern, reason) (or_introl eq_refl)) as Hhd. simpl in Hhd.
  rewrite Hhd. apply IH. intros p Hp. apply H. by right.
Qed.

Lemma existsb_contains_none (kws : list pystr) (text : pystr) :
  (forall kw, In kw kws -> contains kw text = false) ->
  existsb (fun kw => contains kw text) kws = false.
Proof.
  induction kws as [|kw kws IH]; intros H; simpl; [done|].
  rewrite (H kw) by (by left). apply IH. intros k Hk. apply H. by right.
Qed.

(** C6. A page shorter than the small-content threshold (5000 characters)
    that contains one of the keywords captcha, cloudflare, challenge, verify
    (as written or after lower-casing) is classified blocked by the first
    rule; so a 3,000-character page containing "captcha" is flagged; and a
    50,000-character page that contains none of the detector's keywords and
    matches none of its challenge patterns is not flagged. *)
Theorem detect_blocking_fixtures (html url : pystr) :
  ((len html < 5000)%Z ->
   forall kw, In kw short_keywords ->
     contains kw html = true \/ contains kw (lower' html) = true ->
     detect html url =
       (true, Some (lit "Suspiciously short response with blocking keywords"))) /\
  (len html = 3000%Z -> contains (lit "captcha") html = true ->
     (detect html url).1 = true) /\
  (len html = 50000%Z ->
   (forall kw, In kw (short_keywords ++ title_keywords) ->
      contains kw (lower' html) = false) ->
   (forall p, In p blocking_patterns -> re_search_icase p.1 (lower' html) = false) ->
   detect html url = (false, None)).
Proof.
  split; [|split].
  - intros Hlen kw Hin [Hc|Hc].
    + apply (detect_short_keyword html url kw); [done|done|].
      apply contains_lower; [by apply short_keywords_stable|done].
    + by apply (detect_short_keyword html url kw).
  - intros Hlen Hc.
    rewrite (detect_short_keyword html url (lit "captcha")); [done|lia| |].
    + by left.
    + apply contains_lower; [by vm_compute|done].
  - intros Hlen Hkw Hpat. unfold detect_blocking.
    rewrite first_pattern_none by done.
    destruct (Z.ltb_spec (len html) 5000) as [|_]; [lia|].
    destruct (Z.ltb_spec (len html) 20000) as [|_]; [lia|].
    rewrite andb_false_r. cbn [andb].
    destruct (title_search (lower' html)) as [title|] eqn:Ht; [|done].
    rewrite (existsb_contains_false title_keywords (lower' html) title);
      [done|by apply title_search_infix|].
    apply existsb_contains_none. intros kw Hin. apply Hkw.
    apply in_or_app. by right.
Qed.

End DetectProperties.

Section BlockingExamples.
Import Py Blocking Fixtures.

Example detect_stub_runs :
  detect_stub captcha_page (lit "https://kolesa.kz/a/show/1") =
    (true, Some (lit "Suspiciously short response with blocking keywords")) /\
  detect_stub normal_page (lit "https://kolesa.kz/a/show/1") = (false, None) /\
  detect_stub challenge_page (lit "https://kolesa.kz/a/show/1") =
    (true, Some (lit "Cloudflare challenge")).
Proof. vm_compute. repeat split. Qed.

Lemma detect_blocking_fixtures_witness :
  (len captcha_page = 3000%Z /\ contains (lit "captcha") captcha_page = true /\
   (detect_stub captcha_page []).1 = true) /\
  (len normal_page = 50000%Z /\ detect_stub normal_page [] = (false, None)).
Proof.
  split.
  - split; [vm_compute; reflexivity|]. split; [vm_compute; reflexivity|].
    apply (detect_blocking_fixtures lower_stub re_stub captcha_page []).
    + vm_compute; reflexivity.
    + vm_compute; reflexivity.
  - split; [vm_compute; reflexivity|].
    apply (detect_blocking_fixtures lower_stub re_stub normal_page []).
    + vm_compute; reflexivity.
    + intros kw Hin. simpl in Hin.
      repeat (destruct Hin as [<-|Hin]; [vm_compute; reflexivity|]). destruct Hin.
    + intros p Hin. simpl in Hin.
      repeat (destruct Hin as [<-|Hin]; [vm_compute; reflexivity|]). destruct Hin.
Defined.

End BlockingExamples.

Section ResultFacts.

Lemma post_ok {A} (P : A -> Prop) (a : A) : P a -> post P (Ok a).
Proof. intros H. by exists a. Qed.

Lemma post_bind {A B} (Q : A -> Prop) (P : B -> Prop) (m : result A)
    (f : A -> result B) :
  post Q m -> (forall a, Q a -> post P (f a)) -> post P (m ≫= f).
Proof. intros [a [-> Ha]] Hf. exact (Hf a Ha). Qed.

Lemma post_any {A} (m : result A) (a : A) : m = Ok a -> post (fun _ => True) m.
Proof. intros ->. by exists a. Qed.

Lemma post_eq {A} (m : result A) (a : A) : m = Ok a -> post (fun x => x = a) m.
Proof. intros ->. by exists a. Qed.

End ResultFacts.

Section WhitespaceFacts.
Import Py Parse.

Lemma split_ws_aux_nil (cur s : pystr) :
  split_ws_aux cur s = [] -> cur = [] /\ allspace s = true.
Proof.
  revert cur. induction s as [|c s IH]; intros cur; simpl.
  - by destruct cur.
  - destruct (isspace c) eqn:Hc.
    + destruct cur; [|done]. intros H. by destruct (IH [] H).
    + intros H. by destruct (IH _ H).
Qed.

Lemma split_ws_aux_single (s cur w : pystr) :
  split_ws_aux cur s = [w] ->
  exists a x b, s = a ++ x ++ b /\ w = rev cur ++ x /\
    allspace a = true /\ allspace b = true /\ (cur <> [] -> a = []).
Proof.
  revert cur. induction s as [|c s IH]; intros cur; simpl.
  - destruct cur as [|c0 cur]; [intros H; discriminate H|]. intros [= <-].
    exists [], [], []. repeat split; try done. simpl. by rewrite app_nil_r.
  - destruct (isspace c) eqn:Hc.
    + destruct cur as [|c0 cur].
      * intros H. destruct (IH [] H) as (a & x & b & -> & -> & Ha & Hb & _).
        exists (c :: a), x, b. simpl. rewrite Hc. done.
      * intros [= <- H]. apply split_ws_aux_nil in H as [_ Hs].
        exists [], [], (c :: s). simpl. rewrite Hc, app_nil_r. done.
    + intros H. destruct (IH _ H) as (a & x & b & Hs & -> & Ha & Hb & Hcur).
      rewrite (Hcur ltac:(done)) in Hs. simpl in Hs. subst s.
      exists [], (c :: x), b. simpl. rewrite <- app_assoc. done.
Qed.

Lemma split_ws_aux_nospace (w cur : pystr) :
  nospace w = true -> rev cur ++ w <> [] ->
  split_ws_aux cur w = [rev cur ++ w].
Proof.
  revert cur. induction w as [|c w IH]; intros cur Hw Hne; simpl.
  - rewrite app_nil_r in *. destruct cur; [done|done].
  - simpl in Hw. apply andb_true_iff in Hw as [Hc Hw].
    apply negb_true_iff in Hc. rewrite Hc.
    rewrite IH; [|done|simpl; by destruct (rev cur)].
    simpl. by rewrite <- app_assoc.
Qed.

Lemma join_space_nospace (parts : list pystr) (w : pystr) :
  nospace w = true -> join [32%N] parts = w ->
  parts = [w] \/ (parts = [] /\ w = []).
Proof.
  intros Hw. destruct parts as [|p [|q r]]; simpl.
  - intros <-. by right.
  - intros <-. by left.
  - intros <-. exfalso. unfold nospace in Hw.
    rewrite forallb_app in Hw. apply andb_true_iff in Hw as [_ Hw].
    simpl in Hw. done.
Qed.

Lemma lstrip_head (s r : pystr) (c : N) : lstrip s = c :: r -> isspace c = false.
Proof.
  induction s as [|d s IH]; simpl; [done|].
  destruct (isspace d) eqn:Hd; [done|]. by intros [= <- _].
Qed.

Lemma lstrip_suffix (s : pystr) : exists a, s = a ++ lstrip s.
Proof.
  induction s as [|d s [a IH]]; simpl; [by exists []|].
  destruct (isspace d); [|by exists []].
  exists (d :: a). simpl. by rewrite <- IH.
Qed.

Lemma strip_last (ln r : pystr) (c : N) :
  strip ln = r ++ [c] -> isspace c = false.
Proof.
  unfold strip. intros H. apply (f_equal (@rev N)) in H.
  rewrite rev_involutive, rev_app_distr in H. simpl in H.
  by apply lstrip_head in H.
Qed.

Lemma strip_head (ln r : pystr) (c : N) :
  strip ln = c :: r -> isspace c = false.
Proof.
  unfold strip. intros H. apply (f_equal (@rev N)) in H.
  rewrite rev_involutive in H. simpl in H.
  destruct (lstrip_suffix (rev (lstrip ln))) as [a Ha].
  rewrite H in Ha. apply (f_equal (@rev N)) in Ha.
  rewrite rev_involutive, !rev_app_distr, rev_involutive in Ha. simpl in Ha.
  by apply lstrip_head in Ha.
Qed.

Lemma allspace_head (a : pystr) (c : N) (r : pystr) :
  allspace (c :: a) = true -> isspace c = true.
Proof. simpl. by intros [? _]%andb_true_iff. Qed.

Lemma allspace_last (b : pystr) : 
  allspace b = true -> b = [] \/ exists b' c, b = b' ++ [c] /\ isspace c = true.
Proof.
  destruct b as [|c b] using rev_ind; [by left|]. intros H. right.
  unfold allspace in H. rewrite forallb_app in H.
  apply andb_true_iff in H as [_ H]. simpl in H. rewrite andb_true_r in H.
  by exists b, c.
Qed.

(** On a stripped line, white-space normalisation yields a word without
    white space exactly when the line is that word. *)
Lemma clean_stripped_word (ln w : pystr) :
  nospace w = true -> w <> [] ->
  (_clean (Some (strip ln)) = Some w <-> strip ln = w).
Proof.
  intros Hw Hne. split.
  - unfold _clean. change (lit " ") with [32%N].
    destruct (join [32%N] (split_ws (strip ln))) as [|c0 j] eqn:Hj; [done|].
    intros [= <-].
    destruct (join_space_nospace _ _ Hw Hj) as [Hs|[_ ?]]; [|done].
    apply split_ws_aux_single in Hs as (a & x & b & Hs & Hx & Ha & Hb & _).
    simpl in Hx. subst x.
    destruct a as [|ca a].
    + destruct (allspace_last b Hb) as [->|(b' & cb & -> & Hcb)].
      * by rewrite Hs, app_nil_r.
      * simpl in Hs. rewrite app_assoc in Hs.
        apply (strip_last ln ((c0 :: j) ++ b') cb) in Hs. congruence.
    + simpl in Hs. apply strip_head in Hs.
      apply (allspace_head a ca []) in Ha. congruence.
  - intros ->. unfold _clean, split_ws.
    rewrite (split_ws_aux_nospace w []) by done. simpl.
    by destruct w.
Qed.

Lemma text_lines_stripped (t x : pystr) :
  x ∈ text_lines_of t -> exists ln, x = strip ln.
Proof.
  unfold text_lines_of. rewrite list_elem_of_omap.
  intros (ln & _ & H). exists ln. destruct (strip ln); [done|]. by injection H.
Qed.

End WhitespaceFacts.

Section ParseFacts.
Import Py Listing Parse.

Variable get_text : pystr -> pystr.
Variable find_h1 : pystr -> option pystr.
Variable find_all_img : pystr -> list img.
Variable re_search : pystr -> bool -> pystr -> option pystr.
Variable re_match : pystr -> pystr -> bool.
Variable int_of_str : pystr -> option Z.
Variable float_of_str : pystr -> option pyfloat.
Variable isupper : pystr -> bool.
Variable lower_nonascii : pystr -> N -> pystr -> pystr.

Lemma index_of_lt (x : pystr) (l : list pystr) (i : nat) :
  index_of x l = Some i -> (i < length l)%nat.
Proof.
  revert i. induction l as [|y l IH]; intros i; simpl; [done|].
  destruct (decide (y = x)); [intros [= <-]; lia|].
  destruct (index_of x l) as [j|]; [|done]. simpl.
  intros [= <-]. specialize (IH j eq_refl). lia.
Qed.

(** The handlers of [find_value_after] catch everything its body raises. *)
Lemma find_value_after_ok (text_lines : list pystr) (label : pystr) :
  find_value_after text_lines label = Ok (value_after text_lines label).
Proof.
  unfold find_value_after, value_after, list_index, list_get.
  destruct (index_of label text_lines) as [i|]; simpl; [|done].
  case_bool_decide as Hlt; simpl.
  - destruct (lookup_lt_is_Some_2 text_lines (i + 1) Hlt) as [x Hx].
    by rewrite Hx.
  - by rewrite lookup_ge_None_2 by lia.
Qed.

Lemma int_of_group_ok (g : pystr) :
  int_of_group int_of_str g =
    Ok (int_of_str (remove_char 160 (remove_char 32 g))).
Proof.
  unfold int_of_group, py_int.
  by destruct (int_of_str (remove_char 160 (remove_char 32 g))).
Qed.

Lemma mileage_of_ok (s : pystr) :
  exists v, mileage_of re_search int_of_str s = Ok v.
Proof.
  unfold mileage_of. destruct (re_search MILEAGE_RE true s); [|by eexists].
  rewrite int_of_group_ok. by eexists.
Qed.

Lemma catch_float_ok (g : pystr) :
  catch (x ← py_float float_of_str g; Ok (Some x)) value_or_attribute_error (Ok None)
    = Ok (float_of_str g).
Proof. unfold py_float. by destruct (float_of_str g). Qed.

Lemma catch_int_ok (g : pystr) :
  catch (n ← py_int int_of_str g; Ok (Some n)) value_or_attribute_error (Ok None)
    = Ok (int_of_str g).
Proof. unfold py_int. by destruct (int_of_str g). Qed.

Lemma catch_index_ok {A} (x : pystr) (l : list pystr) (k : nat -> A) (d : A) :
  exists v, catch (i ← list_index x l; Ok (k i)) value_or_index_error (Ok d) = Ok v.
Proof.
  unfold list_index. destruct (index_of x l); simpl; by eexists.
Qed.

Local Abbreviation parse :=
  (parse_listing get_text find_h1 find_all_img re_search re_match int_of_str
     float_of_str isupper lower_nonascii).

Tactic Notation "bind_as" ident(x) :=
  eapply (post_bind (fun _ => True)); [|intros x _].
Ltac by_eq H := eapply post_any; apply H.
Tactic Notation "fva_as" ident(x) := bind_as x; [by_eq find_value_after_ok|].

Lemma parse_listing_post (html url : pystr) (listing_id : Z) :
  post (fun r =>
          Listing.listing_id r = listing_id /\ Listing.url r = url /\
          title r = _clean (find_h1 html) /\
          customs_cleared r =
            (let customs := value_after (text_lines_of (get_text html))
                              (lit "Растаможен в Казахстане") in
             if decide (customs = Some (lit "Да")) then Some true
             else if decide (customs = Some (lit "Нет")) then Some false
             else None) /\
          photo_count r = Z.of_nat (length (photos r)))
       (parse html url listing_id).
Proof.
  unfold parse_listing. cbv zeta.
  bind_as price.
  { destruct (re_search PRICE_RE false _); [|by eapply post_any].
    by_eq int_of_group_ok. }
  fva_as city. fva_as region1.
  bind_as region.
  { destruct (truthy _); [by eapply post_any|]. by_eq find_value_after_ok. }
  fva_as generation. fva_as body_type. fva_as transmission.
  fva_as drivetrain. fva_as steering. fva_as color.
  eapply (post_bind (fun v => v = value_after (text_lines_of (get_text html))
                                  (lit "Растаможен в Казахстане"))).
  { eexists. split; [apply find_value_after_ok|reflexivity]. }
  intros customs ->.
  bind_as mileage1.
  { destruct (mileage_of_ok
                (join [10%N] (text_lines_of (get_text html)))) as [v Hv].
    eapply post_any. exact Hv. }
  bind_as mileage_km.
  { destruct mileage1; [by eapply post_any|].
    fva_as label1. bind_as mileage_label.
    { destruct (truthy _); [by eapply post_any|]. by_eq find_value_after_ok. }
    destruct mileage_label as [[|c s]|]; try (by eapply post_any).
    destruct (mileage_of_ok (c :: s)) as [v Hv].
    eapply post_any. exact Hv. }
  fva_as engine_raw.
  bind_as engine.
  { destruct engine_raw as [[|c s]|]; try (by eapply post_any).
    bind_as volume; [|by eapply post_any].
    destruct (re_search VOLUME_RE false _); [|by eapply post_any].
    by_eq catch_float_ok. }
  bind_as seller_name.
  { destruct (list_mem _ _); [|by eapply post_any].
    by_eq find_value_after_ok. }
  bind_as options.
  { destruct (list_mem _ _); [|by eapply post_any].
    unfold list_index. destruct (index_of _ _); by eapply post_any. }
  bind_as car_year.
  { destruct (_clean (find_h1 html)); [|by eapply post_any].
    destruct (re_search YEAR_RE false _); [|by eapply post_any].
    by_eq catch_int_ok. }
  apply post_ok. simpl. repeat split.
Qed.

Lemma value_after_word (t label w : pystr) :
  nospace w = true -> w <> [] ->
  (value_after (text_lines_of t) label = Some w
   <-> line_after (text_lines_of t) label = Some w).
Proof.
  intros Hw Hne. unfold value_after, line_after.
  destruct (index_of label (text_lines_of t)) as [i|]; [|done].
  destruct (text_lines_of t !! (i + 1)%nat) as [x|] eqn:Hx; [|done].
  destruct (text_lines_stripped t x) as [ln ->].
  { apply list_elem_of_lookup. eauto. }
  rewrite (clean_stripped_word ln w Hw Hne). split; congruence.
Qed.

(** C2. For every input the extractor returns a record (every exception its
    body can raise is caught by the handler around it), whatever the HTML
    parser, the regular-expression engine and the number conversions return;
    the record carries the given [listing_id] and [url], every required key,
    and a [photo_count] equal to the number of photos. *)
Theorem parse_listing_total (html url : pystr) (listing_id : Z) :
  exists r, parse html url listing_id = Ok r /\
    Listing.listing_id r = listing_id /\ Listing.url r = url /\
    photo_count r = Z.of_nat (length (photos r)) /\
    Forall (fun key => is_Some (dict_get key (to_dict r))) required_keys /\
    dict_get "listing_id" (to_dict r) = Some (VInt listing_id) /\
    dict_get "url" (to_dict r) = Some (VStr url) /\
    dict_get "photo_count" (to_dict r) = Some (VInt (Z.of_nat (length (photos r)))).
Proof.
  destruct (parse_listing_post html url listing_id)
    as (r & Hr & Hid & Hurl & _ & _ & Hcnt).
  exists r. split; [exact Hr|]. split; [exact Hid|]. split; [exact Hurl|].
  split; [exact Hcnt|]. split.
  - unfold required_keys. repeat constructor; by eexists.
  - rewrite <- Hid, <- Hurl, <- Hcnt. by repeat split.
Qed.

(** The field [customs_cleared] in terms of [line_after]: the comparison with
    the two answers is a comparison of the following line itself. *)
Lemma customs_cleared_line_after (html url : pystr) (listing_id : Z) :
  let following :=
    line_after (text_lines_of (get_text html)) (lit "Растаможен в Казахстане") in
  exists r, parse html url listing_id = Ok r /\
    (customs_cleared r = Some true <-> following = Some (lit "Да")) /\
    (customs_cleared r = Some false <-> following = Some (lit "Нет")) /\
    (customs_cleared r = None <->
       following <> Some (lit "Да") /\ following <> Some (lit "Нет")).
Proof.
  intros following.
  destruct (parse_listing_post html url listing_id)
    as (r & Hr & _ & _ & _ & Hc & _).
  exists r. split; [exact Hr|]. rewrite Hc. clear Hc Hr. cbv zeta.
  pose proof (value_after_word (get_text html) (lit "Растаможен в Казахстане")
                (lit "Да") eq_refl ltac:(done)) as Hyes.
  pose proof (value_after_word (get_text html) (lit "Растаможен в Казахстане")
                (lit "Нет") eq_refl ltac:(done)) as Hno.
  fold following in Hyes, Hno.
  assert (Hdiff : Some (lit "Да") <> Some (lit "Нет")) by done.
  destruct (decide (_ = Some (lit "Да"))) as [Hy|Hy].
  - pose proof (proj1 Hyes Hy) as Hf. rewrite Hf.
    split; [done|]. split; [split; [done|congruence]|].
    split; [done|]. by intros [? _].
  - destruct (decide (_ = Some (lit "Нет"))) as [Hn|Hn].
    + pose proof (proj1 Hno Hn) as Hf. rewrite Hf.
      split; [split; [done|congruence]|]. split; [done|].
      split; [done|]. by intros [_ ?].
    + split; [split; [done|]; intros Hf; by apply Hyes in Hf|].
      split; [split; [done|]; intros Hf; by apply Hno in Hf|].
      split; [|done]. intros _. split; intros Hf.
      * by apply Hyes in Hf.
      * by apply Hno in Hf.
Qed.

(** [list.index] finds the first occurrence, and nothing when there is
    none. *)
Lemma index_of_first (x : pystr) (before rest : list pystr) :
  x ∉ before -> index_of x (before ++ x :: rest) = Some (length before).
Proof.
  induction before as [|y before IH]; intros Hnin; simpl.
  - by destruct (decide (x = x)).
  - apply not_elem_of_cons in Hnin as [Hne Hnin].
    destruct (decide (y = x)) as [->|_]; [done|]. by rewrite IH.
Qed.

Lemma index_of_absent (x : pystr) (l : list pystr) :
  x ∉ l -> index_of x l = None.
Proof.
  induction l as [|y l IH]; intros Hnin; simpl; [done|].
  apply not_elem_of_cons in Hnin as [Hne Hnin].
  destruct (decide (y = x)) as [->|_]; [done|]. by rewrite IH.
Qed.

Lemma line_after_first (x : pystr) (before rest : list pystr) :
  x ∉ before -> line_after (before ++ x :: rest) x = head rest.
Proof.
  intros Hnin. unfold line_after. rewrite index_of_first by done.
  rewrite lookup_app_r by lia.
  replace (length before + 1 - length before)%nat with 1%nat by lia.
  by destruct rest.
Qed.

(** C10. The extractor returns a record whose [customs_cleared] is null when
    no text line is the customs label; otherwise, with [rest] the lines
    after the first line equal to the label, it is true exactly when the
    first line of [rest] is "Да", false exactly when that line is "Нет", and
    null in every other case (no following line, or any other text). *)
Theorem customs_cleared_tristate (html url : pystr) (listing_id : Z) :
  let text_lines := text_lines_of (get_text html) in
  let label := lit "Растаможен в Казахстане" in
  exists r, parse html url listing_id = Ok r /\
    (label ∉ text_lines -> customs_cleared r = None) /\
    (forall before rest,
       text_lines = before ++ label :: rest -> label ∉ before ->
       (customs_cleared r = Some true <-> head rest = Some (lit "Да")) /\
       (customs_cleared r = Some false <-> head rest = Some (lit "Нет")) /\
       (customs_cleared r = None <->
          head rest <> Some (lit "Да") /\ head rest <> Some (lit "Нет"))).
Proof.
  intros text_lines label.
  destruct (customs_cleared_line_after html url listing_id)
    as (r & Hr & Hyes & Hno & Hnone).
  fold text_lines label in Hyes, Hno, Hnone.
  exists r. split; [exact Hr|]. split.
  - intros Hnin. apply Hnone. unfold line_after.
    rewrite index_of_absent by done. by split.
  - intros before rest Hlines Hnin.
    rewrite Hlines, (line_after_first label before rest Hnin) in Hyes, Hno, Hnone.
    by split; [|split].
Qed.

End ParseFacts.

Section ParseExamples.
Import Py Listing Parse Fixtures.

Example parse_stub_customs :
  (customs_cleared <$> parse_stub (customs_page (lit "Да")) [] 7) = Ok (Some true) /\
  (customs_cleared <$> parse_stub (customs_page (lit " Нет  ")) [] 7) = Ok (Some false) /\
  (customs_cleared <$> parse_stub (customs_page (lit "Да, растаможен")) [] 7) = Ok None /\
  (customs_cleared <$> parse_stub (lit "Растаможен в Казахстане") [] 7) = Ok None /\
  (city <$> parse_stub (customs_page (lit "Да")) [] 7) = Ok (Some (lit "Алматы")) /\
  (to_dict <$> parse_stub [] (lit "u") 7) = Ok (to_dict
     {| listing_id := 7; url := lit "u"; title := None; price_kzt := None;
        city := None; region := None; make := None; model := None;
        generation := None; trim := None; car_year := None; mileage_km := None;
        body_type := None; engine_volume_l := None; engine_type := None;
        transmission := None; drivetrain := None; steering := None;
        color := None; customs_cleared := None; seller_name := None;
        seller_type := lit "private"; options_text := None; options_list := [];
        photos := []; photo_count := 0 |}).
Proof. vm_compute. repeat split. Qed.

Lemma customs_cleared_tristate_witness :
  (exists r, parse_stub (customs_page (lit "Да")) [] 7 = Ok r /\
     customs_cleared r = Some true) /\
  (exists r, parse_stub (customs_page (lit "Нет")) [] 7 = Ok r /\
     customs_cleared r = Some false) /\
  (exists r, parse_stub (customs_page (lit "Да, растаможен")) [] 7 = Ok r /\
     customs_cleared r = None) /\
  (exists r, parse_stub (lit "Город") [] 7 = Ok r /\ customs_cleared r = None).
Proof.
  assert (Hbefore : lit "Растаможен в Казахстане" ∉ [lit "Город"; lit "Алматы"]).
  { intros Hin.
    repeat (apply elem_of_cons in Hin as [Heq|Hin]; [by vm_compute in Heq|]).
    by apply elem_of_nil in Hin. }
  pose (tristate := customs_cleared_tristate (fun html => html) (fun _ => None)
          (fun _ => []) (fun _ _ _ => None) (fun _ _ => false) (fun _ => None)
          (fun _ => None) (fun _ => false) lower_stub).
  split; [|split; [|split]].
  - destruct (tristate (customs_page (lit "Да")) [] 7) as (r & Hr & _ & Hfirst).
    exists r. split; [exact Hr|].
    destruct (Hfirst [lit "Город"; lit "Алматы"] [lit "Да"]) as (Hyes & _ & _);
      [vm_compute; reflexivity|exact Hbefore|].
    by apply Hyes.
  - destruct (tristate (customs_page (lit "Нет")) [] 7) as (r & Hr & _ & Hfirst).
    exists r. split; [exact Hr|].
    destruct (Hfirst [lit "Город"; lit "Алматы"] [lit "Нет"]) as (_ & Hno & _);
      [vm_compute; reflexivity|exact Hbefore|].
    by apply Hno.
  - destruct (tristate (customs_page (lit "Да, растаможен")) [] 7)
      as (r & Hr & _ & Hfirst).
    exists r. split; [exact Hr|].
    destruct (Hfirst [lit "Город"; lit "Алматы"] [lit "Да, растаможен"])
      as (_ & _ & Hnone); [vm_compute; reflexivity|exact Hbefore|].
    apply Hnone. split; intros Heq; by vm_compute in Heq.
  - destruct (tristate (lit "Город") [] 7) as (r & Hr & Habsent & _).
    exists r. split; [exact Hr|]. apply Habsent. intros Hin.
    repeat (apply elem_of_cons in Hin as [Heq|Hin]; [by vm_compute in Heq|]).
    by apply elem_of_nil in Hin.
Defined.

End ParseExamples.

Section FetchFacts.
Import Listing Queue Fetch.

Variable detect_blocking : pystr -> pystr -> bool * option pystr.
Variable parse_listing : pystr -> pystr -> Z -> result listing.
Variable upsert_silver : Z -> listing -> Silver.datetime -> Silver.db -> result Silver.db.

Local Abbreviation fetch_one := (fetch_single_listing detect_blocking parse_listing upsert_silver).
Local Abbreviation one_item := (process_item detect_blocking parse_listing upsert_silver).

(** An HTTP status of 400 or more other than 404, on a page that is not
    classified as blocked, makes [fetch_single_listing] return [None]: the
    exception raised for it is caught by the function's own handler. *)
Lemma fetch_error_status_returns_none (w : world) (listing_id status : Z)
    (url html : pystr) (s : Silver.db) :
  w_navigate w = Ok (status, html) ->
  (detect_blocking html url).1 = false ->
  w_archive w = Ok () ->
  400 <= status -> status <> 404 ->
  fetch_one w listing_id url s = Ok (s, None).
Proof.
  intros Hnav Hdet Harch Hge Hne.
  unfold fetch_single_listing, fetch_body. rewrite Hnav. simpl.
  rewrite Hdet, Harch. simpl.
  destruct (Z.eqb_spec status 404) as [|_]; [done|].
  destruct (Z.leb_spec 400 status) as [_|]; [done|lia].
Qed.

(** So does an exception that escapes the navigation. *)
Lemma fetch_navigation_error_returns_none (w : world) (listing_id : Z)
    (url msg : pystr) (s : Silver.db) :
  w_navigate w = Raise (OtherException msg) ->
  fetch_one w listing_id url s = Ok (s, None).
Proof.
  intros Hnav. unfold fetch_single_listing, fetch_body. by rewrite Hnav.
Qed.

(** The batch loop then files the entry as INACTIVE with status 404 and no
    retry time. *)
Lemma error_status_marks_inactive (w : world) (listing_id att status : Z)
    (url html : pystr) (st : state) (r : entry) :
  w_mark_attempt w = Ok () -> w_update_state w = Ok () ->
  w_navigate w = Ok (status, html) ->
  (detect_blocking html url).1 = false ->
  w_archive w = Ok () ->
  400 <= status -> status <> 404 ->
  queue st !! listing_id = Some r ->
  exists st', one_item w (listing_id, url, att) st = (st', true) /\
    silver st' = silver st /\
    queue st' !! listing_id = Some
      {| Queue.url := Queue.url r; Queue.state := INACTIVE; attempts := attempts r + 1;
         last_attempt_at := Some (w_attempt_at w); next_retry_at := None;
         last_http_status := Some 404; last_error := None |}.
Proof.
  intros Hm Hu Hnav Hdet Harch Hge Hne Hq.
  unfold process_item, item_body. rewrite Hm.
  rewrite (fetch_error_status_returns_none w listing_id status url html) by done.
  rewrite Hu. eexists. split; [reflexivity|]. split; [done|]. simpl.
  unfold update_state, mark_attempt. by rewrite !lookup_alter_eq, Hq.
Qed.

(** The retry path of the loop is taken when one of its own queue updates
    fails: the entry is scheduled for retry with the message attached. *)
Lemma loop_exception_schedules_retry (w : world) (listing_id att : Z)
    (url msg : pystr) (st : state) (r : entry) :
  w_mark_attempt w = Raise (OtherException msg) ->
  queue st !! listing_id = Some r ->
  exists st', one_item w (listing_id, url, att) st = (st', true) /\
    queue st' !! listing_id = Some
      {| Queue.url := Queue.url r; Queue.state := RETRY; attempts := att + 1;
         last_attempt_at := last_attempt_at r;
         next_retry_at := Some (w_retry_at w + backoff_minutes (att + 1) * minute);
         last_http_status := Some 0; last_error := Some msg |}.
Proof.
  intros Hm Hq. unfold process_item, item_body. rewrite Hm.
  eexists. split; [reflexivity|]. simpl.
  by apply schedule_retry_lookup.
Qed.

End FetchFacts.

Section FetchExamples.
Import Queue Fetch Fixtures.

(** C1, on the code: a queue entry whose fetch answers HTTP 500 with an
    ordinary page is not scheduled for retry.  [fetch_single_listing] turns
    the failure into [None], and the loop files the entry as INACTIVE with
    status 404, no retry time and no error message. *)
Theorem http_500_entry_becomes_inactive :
  let st' := process_items_stub (fun _ => world_http 500 error_page)
               [(101, url_of 101, 0)] state0 in
  queue st' !! 101 = Some
    {| Queue.url := url_of 101; Queue.state := INACTIVE; attempts := 1;
       last_attempt_at := Some t0; next_retry_at := None;
       last_http_status := Some 404; last_error := None |} /\
  processed_count st' = 0.
Proof. vm_compute. split; reflexivity. Qed.

Lemma error_status_marks_inactive_witness :
  exists st',
    process_item detect_stub parse_stub upsert_stub (world_http 500 error_page)
      (101, url_of 101, 0) state0 = (st', true) /\
    (Queue.state <$> queue st' !! 101) = Some INACTIVE.
Proof.
  destruct (error_status_marks_inactive detect_stub parse_stub upsert_stub
              (world_http 500 error_page) 101 0 500 (url_of 101) error_page
              state0 (new_row (url_of 101)))
    as (st' & Hst & _ & Hq); try reflexivity; try lia.
  exists st'. split; [exact Hst|]. by rewrite Hq.
Defined.

End FetchExamples.

Section ClaimFacts.
Import Queue Claim.

Lemma lock_all_lookup (tx : nat) (ids : list Z) (lk : gmap Z nat) (i : Z) :
  i ∈ ids -> lock_all tx ids lk !! i = Some tx.
Proof.
  induction ids as [|j ids IH]; [by intros ?%elem_of_nil|].
  intros Hin. simpl. destruct (decide (j = i)) as [->|Hne].
  - by rewrite lookup_insert_eq.
  - rewrite lookup_insert_ne by done. apply IH.
    apply elem_of_cons in Hin as [->|]; done.
Qed.

Lemma selected_claimable (tx : nat) (now : Z) (n : nat) (st : store) (i : Z) :
  i ∈ claimed_ids (select_for_update_skip_locked tx now n st).2 ->
  exists row, row.1 = i /\ claimable tx now (locks st) row = true /\
    row ∈ take n (filter (fun row => claimable tx now (locks st) row = true)
                         (map_to_list (rows st))).
Proof.
  unfold claimed_ids, select_for_update_skip_locked. simpl.
  rewrite <- !list_fmap_compose. rewrite list_elem_of_fmap.
  intros (row & -> & Hrow). exists row. split; [done|]. split; [|done].
  apply elem_of_take in Hrow as (k & Hk & _).
  apply list_elem_of_lookup_2 in Hk. by apply list_elem_of_filter in Hk as [? _].
Qed.

(** While the first claimer's transaction is open, a second SELECT passes
    over the rows it holds: the two result sets share no listing id. *)
Lemma open_transactions_claim_disjoint (tx1 tx2 : nat) (now1 now2 : Z)
    (n1 n2 : nat) (st : store) (i : Z) :
  tx1 <> tx2 ->
  let '(st1, items1) := select_for_update_skip_locked tx1 now1 n1 st in
  let '(_, items2) := select_for_update_skip_locked tx2 now2 n2 st1 in
  i ∈ claimed_ids items1 -> i ∈ claimed_ids items2 -> False.
Proof.
  intros Hne.
  destruct (select_for_update_skip_locked tx1 now1 n1 st) as [st1 items1] eqn:H1.
  destruct (select_for_update_skip_locked tx2 now2 n2 st1) as [st2 items2] eqn:H2.
  intros Hi1 Hi2.
  assert (Hlock : locks st1 !! i = Some tx1).
  { pose proof (selected_claimable tx1 now1 n1 st i) as Hs.
    rewrite H1 in Hs. destruct (Hs Hi1) as (row & <- & _ & Hrow).
    unfold select_for_update_skip_locked in H1. injection H1 as <- _. simpl.
    apply lock_all_lookup. apply list_elem_of_fmap. by exists row. }
  pose proof (selected_claimable tx2 now2 n2 st1 i) as Hs.
  rewrite H2 in Hs. destruct (Hs Hi2) as (row & <- & Hc & _).
  unfold claimable in Hc. rewrite Hlock in Hc.
  apply andb_true_iff in Hc as [_ Hc]. apply bool_decide_eq_true in Hc. done.
Qed.

End ClaimFacts.

Section ClaimExamples.
Import Queue Claim Fixtures.

(** C4, on the code: the claim step commits as soon as the SELECT has
    returned and leaves the rows as they were, so a second claimer that
    starts while the first is still processing (here: after the first has
    recorded its attempt on entry 101) is handed the same entries. *)
Theorem second_claim_during_processing_overlaps :
  let '(st1, items1) := claim_batch 1 t0 200 store_two in
  let st1' := {| rows := mark_attempt t0 101 (rows st1); locks := locks st1 |} in
  let '(_, items2) := claim_batch 2 (t0 + 1000000) 200 st1' in
  locks st1 = ∅ /\ rows st1 = rows store_two /\
  claimed_ids items1 = [101; 102] /\ claimed_ids items2 = [101; 102].
Proof. vm_compute. repeat split. Qed.

Lemma open_transactions_claim_disjoint_witness :
  let '(st1, items1) := select_for_update_skip_locked 1 t0 1 store_two in
  let '(_, items2) := select_for_update_skip_locked 2 t0 200 st1 in
  claimed_ids items1 = [101] /\ claimed_ids items2 = [102] /\
  (101 ∈ claimed_ids items1 -> 101 ∈ claimed_ids items2 -> False).
Proof.
  pose proof (open_transactions_claim_disjoint 1 2 t0 t0 1 200 store_two 101
                ltac:(done)) as H.
  destruct (select_for_update_skip_locked 1 t0 1 store_two) as [st1 items1] eqn:H1.
  destruct (select_for_update_skip_locked 2 t0 200 st1) as [st2 items2] eqn:H2.
  split; [|split; [|exact H]].
  - vm_compute in H1. by injection H1 as <- <-.
  - vm_compute in H1. injection H1 as <- <-.
    vm_compute in H2. by injection H2 as <- <-.
Defined.

End ClaimExamples.

Section QueueLifecycle.
Import Queue Claim.

(** After [schedule_retry] the entry is claimable again exactly from the
    moment the backoff has elapsed, and not before. *)
Theorem retry_eligible_exactly_after_backoff
    (now listing_id att status : Z) (error : pystr) (q : table) (r : entry) :
  0 <= att -> q !! listing_id = Some r ->
  exists r', schedule_retry now listing_id att status error q !! listing_id = Some r' /\
    (forall t, eligible t r' = true <-> now + backoff_minutes att * minute <= t) /\
    eligible now r' = false.
Proof.
  intros Ha Hq. eexists. split; [by apply schedule_retry_lookup|].
  unfold eligible. simpl. split.
  - intros t. apply Z.leb_le.
  - apply Z.leb_gt. pose proof (backoff_minutes_pos att Ha). unfold minute. lia.
Qed.

Lemma selected_rows (tx : nat) (now : Z) (n : nat) (st : store)
    (item : Z * pystr * Z) :
  item ∈ (select_for_update_skip_locked tx now n st).2 ->
  exists r, rows st !! item.1.1 = Some r /\ item.1.2 = url r /\
    item.2 = attempts r /\ claimable tx now (locks st) (item.1.1, r) = true.
Proof.
  unfold select_for_update_skip_locked. simpl.
  rewrite list_elem_of_fmap. intros ([i r] & -> & Hrow). simpl.
  apply elem_of_take in Hrow as (k & Hk & _).
  apply list_elem_of_lookup_2 in Hk. apply list_elem_of_filter in Hk as [Hc Hin].
  apply elem_of_map_to_list in Hin. by exists r.
Qed.

(** What a claim returns: at most [n] items, each the id, url and attempt
    count of a row that satisfies the WHERE clause and is not locked by
    another transaction, no id twice; the rows themselves are not changed. *)
Theorem claimed_items_are_eligible_rows (tx : nat) (now : Z) (n : nat) (st : store) :
  let out := select_for_update_skip_locked tx now n st in
  (length out.2 <= n)%nat /\
  NoDup (claimed_ids out.2) /\
  rows out.1 = rows st /\
  Forall (fun item =>
            exists r, rows st !! item.1.1 = Some r /\ item.1.2 = url r /\
              item.2 = attempts r /\ eligible now r = true /\
              (locks st !! item.1.1 = None \/ locks st !! item.1.1 = Some tx))
         out.2.
Proof.
  intros out. split; [|split; [|split]].
  - unfold out, select_for_update_skip_locked. simpl.
    rewrite length_fmap, length_take. lia.
  - unfold out, claimed_ids, select_for_update_skip_locked. simpl.
    rewrite <- !list_fmap_compose.
    set (chosen := take n (filter _ (map_to_list (rows st)))).
    assert (Hs : chosen.*1 `sublist_of` (map_to_list (rows st)).*1).
    { apply fmap_sublist. etrans; [apply sublist_take|apply sublist_filter]. }
    refine (sublist_NoDup _ _ (NoDup_fst_map_to_list (rows st)) _).
    etrans; [|exact Hs]. apply reflexive_eq. by apply list_fmap_ext.
  - done.
  - apply Forall_forall. intros item Hin.
    destruct (selected_rows tx now n st item Hin) as (r & Hr & Hu & Ha & Hc).
    exists r. repeat split; try done.
    + unfold claimable in Hc. by apply andb_true_iff in Hc as [? _].
    + unfold claimable in Hc. apply andb_true_iff in Hc as [_ Hc]. simpl in Hc.
      destruct (locks st !! item.1.1) as [o|]; [|by left].
      right. apply bool_decide_eq_true in Hc. by subst.
Qed.

(** An entry that has been filed as FETCHED or INACTIVE is never returned by
    a later claim. *)
Theorem finished_entry_not_claimed
    (listing_id status : Z) (st : qstate) (error : option pystr)
    (tx : nat) (now : Z) (n : nat) (q : table) (lk : gmap Z nat) :
  st = FETCHED \/ st = INACTIVE ->
  listing_id ∉ claimed_ids
    (select_for_update_skip_locked tx now n
       {| rows := update_state listing_id st status error q; locks := lk |}).2.
Proof.
  intros Hst Hin. unfold claimed_ids in Hin.
  rewrite <- list_fmap_compose in Hin. apply list_elem_of_fmap in Hin as (item & Hid & Hin).
  destruct (selected_rows _ _ _ _ _ Hin) as (r & Hr & _ & _ & Hc).
  simpl in Hid, Hr. rewrite <- Hid in Hr.
  unfold update_state in Hr. rewrite lookup_alter_eq in Hr.
  destruct (q !! listing_id) as [r0|]; [|done]. simpl in Hr. injection Hr as <-.
  unfold claimable, eligible in Hc. simpl in Hc. by destruct Hst as [-> | ->].
Qed.

(** The claim step never touches the locks of other transactions and leaves
    none of its own behind. *)
Lemma claim_batch_locks (tx : nat) (now : Z) (n : nat) (st : store) :
  let out := claim_batch tx now n st in
  rows out.1 = rows st /\
  locks out.1 = filter (fun kv => kv.2 ≠ tx) (locks st).
Proof.
  intros out. unfold out, claim_batch.
  destruct (select_for_update_skip_locked tx now n st) as [st1 items] eqn:Hsel.
  simpl. unfold select_for_update_skip_locked in Hsel. injection Hsel as <- _.
  simpl. split; [done|]. unfold commit. simpl.
  apply map_eq. intros i. rewrite !map_lookup_filter.
  set (chosen := take n (filter _ (map_to_list (rows st)))).
  destruct (decide (i ∈ chosen.*1)) as [Hin|Hnin].
  - rewrite (lock_all_lookup tx _ _ i Hin). simpl.
    rewrite option_guard_False by (simpl; tauto). symmetry.
    apply list_elem_of_fmap in Hin as ([i' r] & -> & Hrow). simpl.
    apply elem_of_take in Hrow as (k & Hk & _).
    apply list_elem_of_lookup_2 in Hk. apply list_elem_of_filter in Hk as [Hc _].
    unfold claimable in Hc. apply andb_true_iff in Hc as [_ Hc]. simpl in Hc.
    destruct (locks st !! i') as [o|]; [|done]. simpl.
    apply bool_decide_eq_true in Hc. subst o.
    by rewrite option_guard_False by (simpl; tauto).
  - assert (Hl : lock_all tx chosen.*1 (locks st) !! i = locks st !! i).
    { clear -Hnin. induction (chosen.*1) as [|j l IH]; [done|]. simpl.
      apply not_elem_of_cons in Hnin as [Hne Hnin].
      rewrite lookup_insert_ne by done. by apply IH. }
    by rewrite Hl.
Qed.

End QueueLifecycle.

Section BatchLoop.
Import Listing Queue Fetch.

Variable detect_blocking : pystr -> pystr -> bool * option pystr.
Variable parse_listing : pystr -> pystr -> Z -> result listing.
Variable upsert_silver : Z -> listing -> Silver.datetime -> Silver.db -> result Silver.db.

Local Abbreviation one_item := (process_item detect_blocking parse_listing upsert_silver).
Local Abbreviation all_items := (process_items detect_blocking parse_listing upsert_silver).

Lemma process_item_frame (w : world) (item : Z * pystr * Z) (st : state) :
  dom (queue (one_item w item st).1) = dom (queue st) /\
  (forall k, k <> item.1.1 -> queue (one_item w item st).1 !! k = queue st !! k) /\
  processed_count st <= processed_count (one_item w item st).1
    <= processed_count st + 1.
Proof.
  destruct item as [[listing_id url] att].
  unfold process_item, item_body.
  repeat case_match; simplify_eq/=;
    unfold schedule_retry, update_state, mark_attempt;
    rewrite ?dom_alter_L;
    (split; [done|split; [|lia]]);
    intros k Hk; by rewrite ?lookup_alter_ne.
Qed.

(** The batch loop neither deletes nor creates queue rows, changes only the
    rows of the items it was given, and counts at most one success per
    item. *)
Lemma batch_loop_frame (env : Z -> world) (items : list (Z * pystr * Z))
    (st : state) :
  let st' := all_items env items st in
  dom (queue st') = dom (queue st) /\
  (forall k, k ∉ items.*1.*1 -> queue st' !! k = queue st !! k) /\
  processed_count st <= processed_count st'
    <= processed_count st + Z.of_nat (length items).
Proof.
  revert st. induction items as [|item items IH]; intros st; simpl.
  - split; [done|]. split; [done|lia].
  - pose proof (process_item_frame (env item.1.1) item st) as (Hd & Hk & Hc).
    destruct (one_item (env item.1.1) item st) as [st1 go_on]. simpl in *.
    destruct go_on.
    + specialize (IH st1). simpl in IH. destruct IH as (Hd' & Hk' & Hc').
      split; [congruence|]. split; [|lia].
      intros k Hnin. apply not_elem_of_cons in Hnin as [Hne Hnin].
      rewrite Hk' by done. by apply Hk.
    + split; [done|]. split; [|lia].
      intros k Hnin. apply not_elem_of_cons in Hnin as [Hne _]. by apply Hk.
Qed.

(** When the detector flags the page of an item, the entry is scheduled for
    retry with the attempt counted and the batch stops there: the result
    does not depend on the items that follow, whose rows stay as they
    were. *)
Theorem blocked_item_stops_batch (env : Z -> world) (listing_id att status : Z)
    (url html : pystr) (rest : list (Z * pystr * Z)) (st : state) :
  let w := env listing_id in
  w_mark_attempt w = Ok () ->
  w_navigate w = Ok (status, html) ->
  (detect_blocking html url).1 = true ->
  all_items env ((listing_id, url, att) :: rest) st =
    {| queue := schedule_retry (w_retry_at w) listing_id (att + 1) 0
                  (lit "Blocking detected")
                  (mark_attempt (w_attempt_at w) listing_id (queue st));
       silver := silver st;
       processed_count := processed_count st |}.
Proof.
  intros w Hm Hnav Hdet. simpl. fold w.
  unfold process_item, item_body, fetch_single_listing, fetch_body.
  rewrite Hm, Hnav. simpl. by rewrite Hdet.
Qed.

(** A page fetched with a status below 400, not flagged, parsed and
    persisted, files the entry as FETCHED with status 200 and no retry time,
    counts it, and leaves Silver as the upsert returned it. *)
Theorem successful_fetch_marks_fetched (w : world) (listing_id att status : Z)
    (url html : pystr) (st : state) (r : entry) (l : listing) (s' : Silver.db) :
  w_mark_attempt w = Ok () -> w_update_state w = Ok () ->
  w_navigate w = Ok (status, html) ->
  (detect_blocking html url).1 = false ->
  w_archive w = Ok () ->
  status < 400 ->
  parse_listing html url listing_id = Ok l ->
  upsert_silver (w_today w) l
    {| Silver.instant := w_fetched_at w; Silver.tzinfo := Some 0 |} (silver st) = Ok s' ->
  queue st !! listing_id = Some r ->
  exists st', one_item w (listing_id, url, att) st = (st', true) /\
    silver st' = s' /\
    processed_count st' = processed_count st + 1 /\
    queue st' !! listing_id = Some
      {| Queue.url := Queue.url r; Queue.state := FETCHED;
         attempts := attempts r + 1;
         last_attempt_at := Some (w_attempt_at w); next_retry_at := None;
         last_http_status := Some 200; last_error := None |}.
Proof.
  intros Hm Hu Hnav Hdet Harch Hlt Hparse Hups Hq.
  unfold process_item, item_body, fetch_single_listing, fetch_body.
  rewrite Hm, Hnav. simpl. rewrite Hdet, Harch. simpl.
  destruct (Z.eqb_spec status 404) as [|_]; [lia|].
  destruct (Z.leb_spec 400 status) as [|_]; [lia|].
  rewrite Hparse. simpl. rewrite Hups. simpl. rewrite Hu.
  eexists. split; [reflexivity|]. simpl. split; [done|]. split; [done|].
  unfold update_state, mark_attempt. by rewrite !lookup_alter_eq, Hq.
Qed.


End BatchLoop.

Section EntryPoint.
Import Listing Queue Fetch Claim Batch.

Variable detect_blocking : pystr -> pystr -> bool * option pystr.
Variable parse_listing : pystr -> pystr -> Z -> result listing.
Variable upsert_silver : Z -> listing -> Silver.datetime -> Silver.db -> result Silver.db.

Local Abbreviation run :=
  (fetch_and_process_batch detect_blocking parse_listing upsert_silver).

(** One call of the fetch entry point reports between zero and
    [batch_size] processed listings, keeps the set of queue rows, changes no
    row that was not eligible when it was called, and releases its locks. *)
Theorem fetch_and_process_batch_bounds (tx : nat) (now : Z) (env : Z -> world)
    (batch_size : nat) (st : store) (sv : Silver.db) :
  let out := run tx now env batch_size st sv in
  0 <= out.2 <= Z.of_nat batch_size /\
  dom (rows out.1.1) = dom (rows st) /\
  (forall k r, rows st !! k = Some r -> eligible now r = false ->
     rows out.1.1 !! k = Some r) /\
  locks out.1.1 = filter (fun kv => kv.2 ≠ tx) (locks st).
Proof.
  intros out. unfold out, fetch_and_process_batch.
  pose proof (claim_batch_locks tx now batch_size st) as [Hrows Hlocks].
  assert (Hlen : (length (select_for_update_skip_locked tx now batch_size st).2
                    <= batch_size)%nat).
  { unfold select_for_update_skip_locked. simpl.
    rewrite length_fmap, length_take. lia. }
  pose proof (selected_rows tx now batch_size st) as Hall.
  unfold claim_batch in *.
  destruct (select_for_update_skip_locked tx now batch_size st)
    as [st1 items] eqn:Hsel.
  cbn [fst snd] in Hrows, Hlocks, Hlen, Hall.
  destruct items as [|item items].
  - cbn [fst snd]. rewrite Hrows. split; [lia|]. by repeat split.
  - remember (item :: items) as its eqn:Hits.
    pose proof (batch_loop_frame detect_blocking parse_listing upsert_silver env its
                  {| queue := rows (commit tx st1); silver := sv;
                     processed_count := 0 |}) as (Hd & Hk & Hc).
    cbn [queue processed_count] in Hd, Hk, Hc. cbn [fst snd rows locks].
    split; [lia|]. split; [by rewrite Hd, Hrows|]. split; [|done].
    intros k r Hr Hne. rewrite Hk; [by rewrite Hrows|].
    intros Hin. rewrite <- list_fmap_compose in Hin.
    apply list_elem_of_fmap in Hin as (it & -> & Hit).
    destruct (Hall it Hit) as (r' & Hr' & _ & _ & Hcl).
    unfold claimable in Hcl. apply andb_true_iff in Hcl as [He _].
    simpl in Hr, He. congruence.
Qed.

End EntryPoint.

Section TaskLoop.
Import Batch.

Variable S : Type.
Variable run_batch : Z -> S -> S * Z.

(** A batch reports between zero and the size it was asked for. *)
Hypothesis run_batch_bounds :
  forall n s, 0 <= n -> 0 <= (run_batch n s).2 <= n.

Lemma fetch_details_loop_terminates (fuel : nat) (remaining total batch_num : Z)
    (s : S) :
  (Z.to_nat remaining <= fuel)%nat -> 0 <= remaining ->
  exists s' total' batch_num',
    fetch_details_loop S run_batch fuel remaining total batch_num s
      = Some (s', total', batch_num') /\
    total <= total' <= total + remaining /\
    batch_num <= batch_num' <= batch_num + (total' - total).
Proof.
  revert remaining total batch_num s.
  induction fuel as [|fuel IH]; intros remaining total batch_num s Hfuel Hrem.
  - simpl. destruct (Z.leb_spec remaining 0); [|lia].
    exists s, total, batch_num. split; [done|lia].
  - simpl. destruct (Z.leb_spec remaining 0).
    { exists s, total, batch_num. split; [done|lia]. }
    pose proof (run_batch_bounds (Z.min 5 remaining) s ltac:(lia)) as Hb.
    destruct (run_batch (Z.min 5 remaining) s) as [s1 processed]. simpl in Hb.
    destruct (Z.eqb_spec processed 0) as [->|Hnz].
    { exists s1, (total + 0), batch_num. split; [done|lia]. }
    destruct (IH (remaining - processed) (total + processed) (batch_num + 1) s1)
      as (s' & total' & batch_num' & Heq & Ht & Hn); [lia|lia|].
    exists s', total', batch_num'. split; [done|lia].
Qed.

(** The fetch task ends after at most [discovered_count] batches: with that
    much fuel the loop returns, and it reports no more processed listings
    than were discovered and no more batches than processed listings. *)
Theorem fetch_details_terminates (discovered_count : Z) (s : S) :
  0 <= discovered_count ->
  exists s' fetched_ok batches,
    fetch_details S run_batch (Z.to_nat discovered_count) discovered_count s
      = Some (s', fetched_ok, batches) /\
    0 <= batches <= fetched_ok /\ fetched_ok <= discovered_count.
Proof.
  intros Hd. unfold fetch_details.
  destruct (fetch_details_loop_terminates (Z.to_nat discovered_count)
              discovered_count 0 1 s) as (s' & total & bn & -> & Ht & Hn);
    [lia|lia|].
  exists s', total, (bn - 1). split; [done|lia].
Qed.

End TaskLoop.

Section ScanFacts.
Import Queue Discover Scan.

(** The closed form of the discovery entry point. *)
Lemma discover_pages_to_db_spec (base_url : pystr) (fetch : Z -> page_outcome)
    (page_from page_to : Z) (q : table) :
  let all_ids := scan_loop fetch (page_range page_from page_to) ∅ in
  discover_pages_to_db base_url fetch page_from page_to q =
    (q ∪ fresh_rows base_url (elements all_ids),
     Z.of_nat (size (all_ids ∖ dom q))).
Proof.
  intros all_ids. unfold discover_pages_to_db. fold all_ids.
  destruct (decide (all_ids = ∅)) as [He|Hne].
  - rewrite He, elements_empty. unfold fresh_rows. simpl.
    rewrite (right_id_L ∅ (∪)).
    replace (∅ ∖ dom q : gset Z) with (∅ : gset Z) by set_solver.
    by rewrite size_empty.
  - rewrite insert_ids_spec by apply NoDup_elements.
    by rewrite list_to_set_elements_L.
Qed.

(** A blocked page or a page without ids ends the scan: the pages behind it
    are not visited, whatever they hold. *)
Theorem scan_stops_at_blocked_or_empty_page (fetch : Z -> page_outcome)
    (before after : list Z) (page : Z) (found : gset Z) :
  fetch page = PageBlocked \/ fetch page = PageIds ∅ ->
  scan_loop fetch (before ++ page :: after) found
    = scan_loop fetch (before ++ [page]) found.
Proof.
  intros Hp. revert found. induction before as [|p before IH]; intros found; simpl.
  - destruct Hp as [-> | ->]; [done|]. by destruct (decide (∅ = ∅)).
  - destruct (fetch p) as [ids| |msg]; [|done|apply IH].
    destruct (decide (ids = ∅)); [done|apply IH].
Qed.


(** Discovery is idempotent: running it again over the queue it produced,
    against the same pages, inserts nothing and leaves the queue as it is. *)
Theorem discover_again_inserts_nothing (base_url : pystr)
    (fetch : Z -> page_outcome) (page_from page_to : Z) (q : table) :
  let out := discover_pages_to_db base_url fetch page_from page_to q in
  discover_pages_to_db base_url fetch page_from page_to out.1 = (out.1, 0).
Proof.
  intros out. unfold out. rewrite !discover_pages_to_db_spec. simpl.
  set (all_ids := scan_loop fetch (page_range page_from page_to) ∅).
  f_equal.
  - rewrite <- (assoc_L (∪)). f_equal. apply (idemp_L (∪)).
  - rewrite dom_union_L, fresh_rows_dom, list_to_set_elements_L.
    replace (all_ids ∖ (dom q ∪ all_ids)) with (∅ : gset Z) by set_solver.
    by rewrite size_empty.
Qed.

(** The number of inserted ids is never negative and never more than the
    number of ids the same scan discovers; on an empty queue the two are
    equal. *)
Theorem inserted_at_most_discovered (base_url : pystr)
    (fetch : Z -> page_outcome) (page_from page_to : Z) (q : table) :
  let inserted := (discover_pages_to_db base_url fetch page_from page_to q).2 in
  0 <= inserted <= discover_pages fetch page_from page_to /\
  (discover_pages_to_db base_url fetch page_from page_to ∅).2
    = discover_pages fetch page_from page_to.
Proof.
  intros inserted. unfold inserted, discover_pages.
  rewrite !discover_pages_to_db_spec. simpl.
  set (all_ids := scan_loop fetch (page_range page_from page_to) ∅).
  split.
  - split; [lia|]. apply inj_le. apply subseteq_size. set_solver.
  - rewrite dom_empty_L. by replace (all_ids ∖ ∅) with all_ids by set_solver.
Qed.

(** An empty page range ([page_to] below [page_from]) visits no page,
    inserts nothing and returns 0. *)
Lemma empty_page_range_is_noop (base_url : pystr) (fetch : Z -> page_outcome)
    (page_from page_to : Z) (q : table) :
  page_to < page_from ->
  discover_pages_to_db base_url fetch page_from page_to q = (q, 0) /\
  discover_pages fetch page_from page_to = 0.
Proof.
  intros Hlt.
  assert (Hr : page_range page_from page_to = []).
  { unfold page_range, seqZ. replace (Z.to_nat _) with 0%nat by lia. done. }
  unfold discover_pages_to_db, discover_pages. rewrite Hr. simpl.
  split; [by destruct (decide (∅ = ∅))|]. by vm_compute.
Qed.

End ScanFacts.

Section UpsertFacts.
Import Listing Silver.

Variable json_of_listing : listing -> pystr.
Variable json_of_photos : list pystr -> pystr.
Variable sha256_hex : pystr -> pystr.

Local Abbreviation upsert := (upsert_silver json_of_listing json_of_photos sha256_hex).
Local Abbreviation offered :=
  (fun l first_seen fetched_at =>
     excluded_row json_of_photos l first_seen fetched_at
       (payload_hash json_of_listing sha256_hex l)).

Lemma upsert_silver_inv (today : Z) (l : listing) (fetched_at : datetime)
    (s s' : db) :
  upsert today l fetched_at s = Ok s' ->
  is_Some (tzinfo fetched_at) /\
  price_event_step l fetched_at (current s !! listing_id l ≫= c_price_kzt) (events s)
    = Ok (events s') /\
  current s' =
    upsert_current (listing_id l)
      (offered l (match current s !! listing_id l with
                  | Some r => c_first_seen_at r
                  | None => instant fetched_at
                  end) fetched_at) (current s) /\
  daily s' =
    upsert_daily (listing_id l, today) (price_kzt l) (Some (photo_count l)) (daily s).
Proof.
  unfold upsert_silver. destruct (tzinfo fetched_at) as [tz|]; [|done].
  destruct (price_event_step l fetched_at _ (events s)) as [es|e] eqn:Hes; [|done].
  simpl. intros [= <-]. simpl. by repeat split.
Qed.

Lemma price_event_step_cases (l : listing) (fetched_at : datetime)
    (old_price : option Z) (es es' : list price_event) :
  price_event_step l fetched_at old_price es = Ok es' ->
  es' = es \/
  exists old new, old_price = Some old /\ price_kzt l = Some new /\
    es' = insert_price_event
            {| e_listing_id := listing_id l; e_event_ts := instant fetched_at;
               e_old_price_kzt := old; e_new_price_kzt := new |} es.
Proof.
  unfold price_event_step.
  destruct old_price as [old|]; [|by intros [= <-]; left].
  destruct (price_kzt l) as [new|]; [|by intros [= <-]; left].
  destruct (float_of_int old) as [fo|]; [|done]. simpl.
  destruct (float_of_int new) as [fn|]; [|done]. simpl.
  destruct (decide (fo ≠ fn)); intros [= <-]; [|by left].
  right. by exists old, new.
Qed.

Lemma event_conflicts_keys (e : price_event) (es : list price_event) :
  event_conflicts e es = true <-> event_key e ∈ event_key <$> es.
Proof.
  unfold event_conflicts. rewrite existsb_exists, list_elem_of_fmap. split.
  - intros (e' & Hin & Hk). exists e'. split; [|by apply list_elem_of_In].
    apply andb_true_iff in Hk as [H1%Z.eqb_eq H2%Z.eqb_eq].
    unfold event_key. by rewrite H1, H2.
  - intros (e' & Hk & Hin). exists e'. split; [by apply list_elem_of_In|].
    unfold event_key in Hk. injection Hk as -> ->. by rewrite !Z.eqb_refl.
Qed.


(** Price events are append-only: an upsert keeps every stored event in
    place and adds at most one at the end. *)
Theorem upsert_appends_at_most_one_event (today : Z) (l : listing)
    (fetched_at : datetime) (s s' : db) :
  upsert today l fetched_at s = Ok s' ->
  events s `prefix_of` events s' /\
  (length (events s') <= length (events s) + 1)%nat.
Proof.
  intros (_ & Hes & _)%upsert_silver_inv.
  apply price_event_step_cases in Hes as [->|(old & new & _ & _ & ->)].
  - split; [done|lia].
  - unfold insert_price_event. destruct (event_conflicts _ _).
    + split; [done|lia].
    + split; [by apply prefix_app_r|]. rewrite length_app. simpl. lia.
Qed.

(** No two stored price events ever share a (listing, timestamp) key: an
    upsert preserves that. *)
Theorem upsert_keeps_event_keys_unique (today : Z) (l : listing)
    (fetched_at : datetime) (s s' : db) :
  NoDup (event_key <$> events s) ->
  upsert today l fetched_at s = Ok s' ->
  NoDup (event_key <$> events s').
Proof.
  intros Hnd (_ & Hes & _)%upsert_silver_inv.
  apply price_event_step_cases in Hes as [->|(old & new & _ & _ & ->)]; [done|].
  unfold insert_price_event.
  destruct (event_conflicts _ (events s)) eqn:Hc; [done|].
  rewrite fmap_app. apply NoDup_app. split; [done|]. split.
  - intros k Hk Hin. apply list_elem_of_singleton in Hin. subst k.
    apply event_conflicts_keys in Hk. congruence.
  - simpl. apply NoDup_singleton.
Qed.

(** An upsert is idempotent: repeating it with the same record, timestamp
    and day leaves all three tables exactly as the first one left them. *)
Theorem upsert_twice_is_upsert_once (today : Z) (l : listing)
    (fetched_at : datetime) (s s1 : db) :
  (forall p, price_kzt l = Some p -> price_in_column p) ->
  upsert today l fetched_at s = Ok s1 ->
  upsert today l fetched_at s1 = Ok s1.
Proof.
  intros Hp Hups. pose proof (upsert_silver_inv _ _ _ _ _ Hups) as ([tz Htz] & _ & Hcur & Hday).
  destruct s1 as [cur1 day1 es1]. simpl in *.
  unfold upsert_silver. rewrite Htz. simpl.
  assert (Hrow : exists row1, cur1 !! listing_id l = Some row1 /\
             c_price_kzt row1 = price_kzt l /\
             conflict_update row1
               (offered l (c_first_seen_at row1) fetched_at) = row1).
  { rewrite Hcur. unfold upsert_current.
    destruct (current s !! listing_id l) as [old|] eqn:Hold;
      (eexists; split; [by rewrite lookup_insert_eq|]; by split). }
  destruct Hrow as (row1 & Hrow1 & Hprice & Hfix).
  rewrite Hrow1. simpl. rewrite Hprice.
  assert (Hstep : price_event_step l fetched_at (price_kzt l) es1 = Ok es1).
  { destruct (price_kzt l) as [p|] eqn:Hpl; [|done].
    by apply price_event_step_same; [|apply Hp]. }
  rewrite Hstep. simpl. f_equal. f_equal.
  - unfold upsert_current. rewrite Hrow1, Hfix. by apply insert_id.
  - rewrite Hday. unfold upsert_daily.
    destruct (daily s !! (listing_id l, today)) as [old|];
      rewrite lookup_insert_eq; simpl; by rewrite insert_insert_eq.
Qed.

(** A view count written by the enrichment pass survives a later fetch of
    the same listing on the same day. *)
Theorem enriched_views_survive_upsert (today view_count : Z) (l : listing)
    (fetched_at : datetime) (s s' : db) (row : daily_row) :
  daily s !! (listing_id l, today) = Some row ->
  upsert today l fetched_at
    {| current := current s;
       daily := Views.set_views view_count (listing_id l) today (daily s);
       events := events s |} = Ok s' ->
  (d_views <$> daily s' !! (listing_id l, today)) = Some (Some view_count).
Proof.
  intros Hrow (_ & _ & _ & Hday)%upsert_silver_inv. simpl in Hday.
  rewrite Hday. unfold upsert_daily, Views.set_views.
  rewrite lookup_alter_eq, Hrow. simpl. by rewrite lookup_insert_eq.
Qed.

End UpsertFacts.

Section TitlePattern.
Import Py Blocking.

Lemma strip_prefix_app (p r : pystr) : strip_prefix p (p ++ r) = Some r.
Proof. induction p as [|a p IH]; simpl; [done|]. by rewrite N.eqb_refl. Qed.

Lemma is_prefix_app (p r : pystr) : is_prefix p (p ++ r) = true.
Proof. apply is_prefix_spec. by exists r. Qed.

Lemma take_until_spec (stop : N) (s a b : pystr) :
  take_until stop s = (a, b) ->
  s = a ++ b /\ (stop ∉ a) /\ (b = [] \/ exists b', b = stop :: b').
Proof.
  revert a b. induction s as [|c s IH]; intros a b; simpl.
  - intros [= <- <-]. split; [done|]. split; [apply not_elem_of_nil|by left].
  - destruct (N.eqb_spec c stop) as [->|Hne].
    + intros [= <- <-]. split; [done|]. split; [apply not_elem_of_nil|].
      right. by exists s.
    + destruct (take_until stop s) as [a' b'] eqn:Ht.
      intros [= <- <-]. destruct (IH a' b' eq_refl) as (-> & Hnin & Hb).
      split; [done|]. split; [|done].
      apply not_elem_of_cons. by split.
Qed.

Lemma take_until_app_stop (stop : N) (a r : pystr) :
  stop ∉ a -> take_until stop (a ++ stop :: r) = (a, stop :: r).
Proof.
  induction a as [|c a IH]; intros Hnin; simpl.
  - by rewrite N.eqb_refl.
  - apply not_elem_of_cons in Hnin as [Hne Hnin].
    destruct (N.eqb_spec c stop) as [->|_]; [done|]. by rewrite IH.
Qed.

Lemma title_at_sound (s g : pystr) :
  title_at s = Some g -> exists x b, title_shape s [] x g b.
Proof.
  unfold title_at.
  destruct (strip_prefix (lit "<title") s) as [r|] eqn:Hp; [|done].
  apply strip_prefix_spec in Hp.
  destruct (take_until 62 r) as [x r1] eqn:H1.
  apply take_until_spec in H1 as (Hr & Hx & Hr1).
  destruct r1 as [|c r2]; [done|].
  destruct Hr1 as [|[b' [= -> <-]]]; [done|].
  destruct (take_until 60 r2) as [g' r3] eqn:H2.
  apply take_until_spec in H2 as (Hr2 & Hg & _).
  destruct g' as [|c' g']; [done|].
  destruct (is_prefix (lit "</title>") r3) eqn:H3; [|done].
  apply is_prefix_spec in H3 as [b ->].
  intros [= <-]. exists x, b. unfold title_shape.
  split; [|done]. by rewrite Hp, Hr, Hr2.
Qed.

Lemma title_at_complete (x g b : pystr) :
  (62%N ∉ x) -> (60%N ∉ g) -> g <> [] ->
  title_at (lit "<title" ++ x ++ [62%N] ++ g ++ lit "</title>" ++ b) = Some g.
Proof.
  intros Hx Hg Hne. unfold title_at. rewrite strip_prefix_app.
  change (x ++ [62%N] ++ g ++ lit "</title>" ++ b)
    with (x ++ 62%N :: (g ++ lit "</title>" ++ b)).
  rewrite take_until_app_stop by done.
  change (lit "</title>" ++ b) with (60%N :: (tail (lit "</title>") ++ b)).
  rewrite take_until_app_stop by done.
  destruct g as [|c g]; [done|].
  change (60%N :: (tail (lit "</title>") ++ b)) with (lit "</title>" ++ b).
  by rewrite is_prefix_app.
Qed.

Lemma title_search_here (s g : pystr) :
  title_at s = Some g -> title_search s = Some g.
Proof.
  intros H. destruct s as [|c s]; [by vm_compute in H|].
  simpl. by rewrite H.
Qed.

(** The title search implements the pattern [<title[^>]*>([^<]+)</title>]:
    a result is the text between the first [>] after some [<title] and the
    next [<], non-empty and directly followed by [</title>]; and on every
    page that has such a place the search finds a title. *)
Theorem title_search_matches_pattern (s : pystr) :
  (forall g, title_search s = Some g -> exists a x b, title_shape s a x g b) /\
  ((exists a x g b, title_shape s a x g b) -> is_Some (title_search s)).
Proof.
  split.
  - induction s as [|c s IH]; intros g; simpl.
    + intros H. vm_compute in H. discriminate.
    + destruct (title_at (c :: s)) as [g'|] eqn:Ht.
      * intros [= <-]. destruct (title_at_sound _ _ Ht) as (x & b & Hs).
        by exists [], x, b.
      * intros H. destruct (IH g H) as (a & x & b & -> & Hrest).
        exists (c :: a), x, b. by split.
  - intros (a & x & g & b & -> & Hx & Hg & Hne).
    induction a as [|c a IH].
    + simpl app at 1.
      rewrite (title_search_here _ g); [by eexists|].
      by apply title_at_complete.
    + simpl. destruct (title_at (c :: _)); [by eexists|]. exact IH.
Qed.

End TitlePattern.

Section DetectFacts.
Import Py Blocking.

Variable lower_nonascii : pystr -> N -> pystr -> pystr.
Variable re_search_icase : pystr -> pystr -> bool.

Local Abbreviation detect := (detect_blocking lower_nonascii re_search_icase).
Local Abbreviation lower' := (lower lower_nonascii).

(** The detector gives a reason exactly when it reports blocking. *)
Theorem blocked_iff_reason (html url : pystr) :
  let out := detect_blocking lower_nonascii re_search_icase html url in
  (out.1 = true <-> is_Some out.2) /\ (out.1 = false <-> out.2 = None).
Proof.
  intros out. unfold out, detect_blocking.
  repeat case_match; simpl; split; split; intros Hside; try done;
    try (by eexists); by destruct Hside.
Qed.

(** A page of 20,000 characters or more is judged by the challenge patterns
    and by its title alone: however many blocking keywords its body holds,
    it is not flagged when no pattern matches and it has no title or a title
    without title keywords. *)
Theorem large_page_needs_pattern_or_title (html url : pystr) :
  (20000 <= len html)%Z ->
  (forall p, In p blocking_patterns -> re_search_icase p.1 (lower' html) = false) ->
  (forall title, title_search (lower' html) = Some title ->
     forall kw, In kw title_keywords -> contains kw title = false) ->
  detect html url = (false, None).
Proof.
  intros Hlen Hpat Htitle. unfold detect_blocking.
  rewrite first_pattern_none by done.
  destruct (Z.ltb_spec (len html) 5000) as [|_]; [lia|].
  destruct (Z.ltb_spec (len html) 20000) as [|_]; [lia|].
  rewrite andb_false_r. cbn [andb].
  destruct (title_search (lower' html)) as [title|] eqn:Ht; [|done].
  by rewrite (existsb_contains_none title_keywords title (Htitle title eq_refl)).
Qed.

End DetectFacts.

Section CleanFacts.
Import Py Parse.

Lemma lstrip_elem (s : pystr) (c : N) : c ∈ lstrip s -> c ∈ s.
Proof.
  destruct (lstrip_suffix s) as [a Ha]. intros Hc. rewrite Ha.
  apply elem_of_app. by right.
Qed.

Lemma elem_of_rev (l : pystr) (c : N) : c ∈ rev l <-> c ∈ l.
Proof. rewrite !list_elem_of_In. symmetry. apply in_rev. Qed.

Lemma strip_elem (s : pystr) (c : N) : c ∈ strip s -> c ∈ s.
Proof.
  unfold strip. rewrite elem_of_rev. intros Hc%lstrip_elem.
  apply (proj1 (elem_of_rev _ _)) in Hc. by apply lstrip_elem.
Qed.

Lemma split_on_no_sep (sep : N) (s w : pystr) :
  w ∈ split_on sep s -> sep ∉ w.
Proof.
  revert w. induction s as [|c s IH]; intros w; simpl.
  - intros ->%list_elem_of_singleton. apply not_elem_of_nil.
  - destruct (split_on sep s) as [|w0 ws] eqn:Hs.
    + intros ->%list_elem_of_singleton. apply not_elem_of_nil.
    + destruct (N.eqb_spec c sep) as [->|Hne].
      * intros [->|Hin]%elem_of_cons; [apply not_elem_of_nil|by apply IH].
      * intros [->|Hin]%elem_of_cons.
        -- apply not_elem_of_cons. split; [done|]. apply IH. by left.
        -- apply IH. by right.
Qed.

(** Every text line is non-empty, holds no newline, and neither begins nor
    ends with white space. *)
Theorem text_lines_are_stripped (page_text x : pystr) :
  x ∈ text_lines_of page_text ->
  x <> [] /\ (10%N ∉ x) /\
  (forall c r, x = c :: r -> isspace c = false) /\
  (forall r c, x = r ++ [c] -> isspace c = false).
Proof.
  unfold text_lines_of. rewrite list_elem_of_omap. intros (ln & Hln & Hx).
  destruct (strip ln) as [|c0 s0] eqn:Hs; [done|]. injection Hx as <-.
  split; [done|]. split; [|split].
  - intros Hin. rewrite <- Hs in Hin. apply strip_elem in Hin.
    by apply (split_on_no_sep 10 page_text ln).
  - intros c r Heq. apply (strip_head ln r c). by rewrite Hs.
  - intros r c Heq. apply (strip_last ln r c). by rewrite Hs.
Qed.

Lemma word_rev (c : N) (cur : pystr) :
  nospace (c :: cur) = true -> word (rev (c :: cur)).
Proof.
  intros Hcur. split.
  - unfold nospace in *. rewrite forallb_forall in *. intros y Hy.
    apply Hcur. by apply in_rev.
  - simpl. by destruct (rev cur).
Qed.

Lemma split_ws_aux_words (s cur : pystr) :
  nospace cur = true -> Forall word (split_ws_aux cur s).
Proof.
  revert cur. induction s as [|c s IH]; intros cur Hcur; simpl.
  - destruct cur as [|c0 cur]; [done|]. constructor; [by apply word_rev|done].
  - destruct (isspace c) eqn:Hc.
    + destruct cur as [|c0 cur]; [by apply IH|].
      constructor; [by apply word_rev|by apply IH].
    + apply IH. simpl. by rewrite Hc.
Qed.

Lemma split_ws_aux_word_then (w cur rest : pystr) :
  nospace w = true ->
  split_ws_aux cur (w ++ rest) = split_ws_aux (rev w ++ cur) rest.
Proof.
  revert cur. induction w as [|c w IH]; intros cur Hw; simpl; [done|].
  simpl in Hw. apply andb_true_iff in Hw as [Hc Hw].
  apply negb_true_iff in Hc. rewrite Hc, IH by done. by rewrite <- app_assoc.
Qed.

Lemma split_ws_aux_space (c : N) (cur rest : pystr) :
  isspace c = true -> cur <> [] ->
  split_ws_aux cur (c :: rest) = rev cur :: split_ws_aux [] rest.
Proof. intros Hc Hne. simpl. rewrite Hc. by destruct cur. Qed.

Lemma split_ws_join (ws : list pystr) :
  Forall word ws -> split_ws (join [32%N] ws) = ws.
Proof.
  unfold split_ws. induction 1 as [|w ws [Hw Hne] Hws IH]; [done|].
  destruct ws as [|w2 ws].
  - simpl. rewrite (split_ws_aux_nospace w []) by done. done.
  - change (join [32%N] (w :: w2 :: ws))
      with (w ++ 32%N :: join [32%N] (w2 :: ws)).
    rewrite split_ws_aux_word_then by done. rewrite app_nil_r.
    rewrite split_ws_aux_space; [|done|].
    + by rewrite rev_involutive, IH.
    + intros Hrev. apply (f_equal (@rev N)) in Hrev.
      rewrite rev_involutive in Hrev. done.
Qed.

(** [_clean] is idempotent and never returns an empty string: what it
    returns is already normalised. *)
Theorem clean_idempotent (s : option pystr) :
  _clean (_clean s) = _clean s /\ _clean s <> Some [].
Proof.
  destruct s as [s|]; [|done].
  assert (Hc : forall t, _clean (Some t) =
            match join [32%N] (split_ws t) with
            | [] => None
            | _ :: _ => Some (join [32%N] (split_ws t))
            end)
    by reflexivity.
  rewrite (Hc s).
  destruct (join [32%N] (split_ws s)) as [|c j] eqn:Hj; [done|].
  split; [|done]. rewrite Hc, <- Hj, split_ws_join; [by rewrite Hj|].
  by apply split_ws_aux_words.
Qed.

End CleanFacts.

Section ViewsFacts.
Import Silver Views.

Lemma chunks_from_concat (k : nat) (n : nat) (ids : list Z) (i : nat) :
  (0 < k)%nat ->
  (length ids <= i * k + n * k)%nat ->
  concat (map (fun j => take k (drop j ids))
              ((fun j => (j * k)%nat) <$> seq i n)) = drop (i * k) ids.
Proof.
  intros Hk. revert i. induction n as [|n IH]; intros i Hlen; simpl.
  - rewrite drop_ge by lia. done.
  - rewrite IH by lia.
    replace (S i * k)%nat with (i * k + k)%nat by lia.
    rewrite <- drop_drop. apply take_drop.
Qed.

Lemma ceil_div_bounds (n k : nat) :
  (0 < k)%nat ->
  (n <= ((n + k - 1) `div` k) * k)%nat /\
  (forall j, (j < (n + k - 1) `div` k)%nat -> (j * k < n)%nat).
Proof.
  intros Hk.
  pose proof (Nat.div_mod (n + k - 1) k ltac:(lia)) as Hdm.
  pose proof (Nat.mod_upper_bound (n + k - 1) k ltac:(lia)) as Hm.
  change (Nat.div (n + k - 1) k) with ((n + k - 1) `div` k)%nat in Hdm.
  split; [nia|]. intros j Hj. nia.
Qed.

(** With a positive batch size the chunks are a partition of the ids in
    order: concatenated they give the ids back, none is empty and none is
    longer than the batch size. *)
Theorem chunks_partition (batch_size : Z) (ids : list Z) :
  0 < batch_size ->
  exists cs, chunks batch_size ids = Ok cs /\
    concat cs = ids /\
    Forall (fun c => (0 < length c)%nat /\ Z.of_nat (length c) <= batch_size) cs.
Proof.
  intros Hb. unfold chunks, range_step.
  destruct (Z.eqb_spec batch_size 0) as [|_]; [lia|].
  destruct (Z.ltb_spec batch_size 0) as [|_]; [lia|].
  set (k := Z.to_nat batch_size). assert (Hk : (0 < k)%nat) by lia.
  destruct (ceil_div_bounds (length ids) k Hk) as [Hup Hlow].
  eexists. split; [done|]. split.
  - rewrite (chunks_from_concat k _ ids 0 Hk) by lia. done.
  - apply Forall_forall. intros c Hc.
    apply list_elem_of_fmap in Hc as (i & -> & Hi).
    apply list_elem_of_fmap in Hi as (j & -> & Hj).
    apply elem_of_seq in Hj. specialize (Hlow j ltac:(lia)).
    rewrite length_take, length_drop. lia.
Qed.

(** A batch size of zero makes the chunking raise, and a negative one
    silently yields no chunk at all, whatever the ids. *)
Lemma chunks_without_positive_batch_size (batch_size : Z) (ids : list Z) :
  batch_size <= 0 ->
  chunks batch_size ids = (if batch_size =? 0 then Raise ValueError else Ok []).
Proof.
  intros Hb. unfold chunks, range_step.
  destruct (Z.eqb_spec batch_size 0) as [|Hne]; [done|].
  destruct (Z.ltb_spec batch_size 0) as [|]; [done|lia].
Qed.

Lemma ids_to_fetch_elem (today : Z) (t : gmap (Z * Z) daily_row) (x : Z) :
  x ∈ ids_to_fetch today t <->
  exists r, t !! (x, today) = Some r /\ d_views r = None.
Proof.
  unfold ids_to_fetch. rewrite list_elem_of_fmap. split.
  - intros ([[i d] r] & -> & Hin). apply list_elem_of_filter in Hin as [[Hd Hv] Hin].
    simpl in *. subst d. apply elem_of_map_to_list in Hin. eauto.
  - intros (r & Hr & Hv). exists ((x, today), r). split; [done|].
    apply list_elem_of_filter. split; [done|]. by apply elem_of_map_to_list.
Qed.

(** Once a view count is stored for a listing's snapshot of today, the
    listing is no longer selected for enrichment; every other listing is
    selected exactly as before. *)
Theorem set_views_removes_from_ids_to_fetch
    (view_count listing_id today : Z) (t : gmap (Z * Z) daily_row) (x : Z) :
  x ∈ ids_to_fetch today (set_views view_count listing_id today t) <->
  x <> listing_id /\ x ∈ ids_to_fetch today t.
Proof.
  rewrite !ids_to_fetch_elem. unfold set_views.
  destruct (decide (x = listing_id)) as [->|Hne].
  - rewrite lookup_alter_eq. split; [|by intros [? _]].
    intros (r & Hr & Hv). destruct (t !! (listing_id, today)); simplify_eq/=.
  - rewrite lookup_alter_ne by congruence. naive_solver.
Qed.

(** The ids selected for enrichment hold no duplicate. *)
Lemma ids_to_fetch_NoDup (today : Z) (t : gmap (Z * Z) daily_row) :
  NoDup (ids_to_fetch today t).
Proof.
  unfold ids_to_fetch.
  apply (NoDup_fmap_2_strong (fun kv : Z * Z * daily_row => kv.1.1)).
  - intros [[i1 d1] r1] [[i2 d2] r2] H1 H2 Heq. simpl in Heq. subst i2.
    apply list_elem_of_filter in H1 as [[Hd1 _] H1].
    apply list_elem_of_filter in H2 as [[Hd2 _] H2]. simpl in *. subst.
    apply elem_of_map_to_list in H1, H2. congruence.
  - apply NoDup_filter, NoDup_map_to_list.
Qed.

End ViewsFacts.

Section StatsFacts.
Import Stats.

Lemma histogram_total_add (k : Z) (h : gmap Z Z) :
  histogram_total (add k 1 h) = histogram_total h + 1.
Proof.
  unfold histogram_total, add, get.
  assert (Hcomm : forall (m : gmap Z Z) (j1 j2 z1 z2 y : Z),
    j1 <> j2 -> m !! j1 = Some z1 -> m !! j2 = Some z2 ->
    z1 + (z2 + y) = z2 + (z1 + y)) by (intros; lia).
  destruct (h !! k) as [v|] eqn:Hk; simpl.
  - rewrite <- insert_delete_eq.
    rewrite map_fold_insert_L; [|by eauto|by rewrite lookup_delete_eq].
    rewrite (map_fold_delete_L _ _ k v h); [lia|by eauto|done].
  - rewrite map_fold_insert_L; [lia|by eauto|done].
Qed.

Lemma get_add_eq (key : string) (n : Z) (d : gmap string Z) :
  get (add key n d) key = get d key + n.
Proof. unfold add, get. by rewrite lookup_insert_eq. Qed.

Lemma get_add_ne (key key' : string) (n : Z) (d : gmap string Z) :
  key <> key' -> get (add key n d) key' = get d key'.
Proof. intros Hne. unfold add, get. by rewrite lookup_insert_ne. Qed.

(** Whatever methods are called on a fresh collector, and in whatever
    order: the failed count is the number of stored error messages, the
    fetched count is the sum of the status-code histogram, and no counter is
    negative. *)
Theorem collector_counts_agree (calls : list call) :
  let c := after calls in
  get (counts c) "failed" = Z.of_nat (length (errors c)) /\
  get (counts c) "fetched" = histogram_total (status_codes c) /\
  (forall key, 0 <= get (counts c) key).
Proof.
  unfold after. induction calls as [|k calls IH] using rev_ind.
  - simpl. split; [by vm_compute|]. split; [by vm_compute|].
    intros key. unfold get, reset. cbn [counts].
    rewrite !lookup_insert, lookup_empty. by repeat case_decide.
  - rewrite foldl_app. simpl. destruct IH as (Hf & Hh & Hpos).
    set (c := foldl apply_call reset calls) in *.
    destruct k as [n| s | | e | |]; simpl;
      unfold record_discovered, record_fetched, record_parsed, record_failed,
        record_blocked, record_duplicate; simpl.
    + destruct (Z.ltb_spec n 0); [done|]. simpl.
      rewrite !get_add_ne by done. split; [done|]. split; [done|].
      intros key. destruct (decide ("discovered"%string = key)) as [<-|?].
      * rewrite get_add_eq. specialize (Hpos "discovered"%string). lia.
      * by rewrite get_add_ne.
    + rewrite get_add_ne by done. rewrite get_add_eq, histogram_total_add.
      split; [done|]. split; [lia|].
      intros key. destruct (decide ("fetched"%string = key)) as [<-|?].
      * rewrite get_add_eq. specialize (Hpos "fetched"%string). lia.
      * by rewrite get_add_ne.
    + rewrite !get_add_ne by done. split; [done|]. split; [done|].
      intros key. destruct (decide ("parsed"%string = key)) as [<-|?].
      * rewrite get_add_eq. specialize (Hpos "parsed"%string). lia.
      * by rewrite get_add_ne.
    + rewrite get_add_eq, get_add_ne by done. rewrite length_app. simpl.
      split; [lia|]. split; [done|].
      intros key. destruct (decide ("failed"%string = key)) as [<-|?].
      * rewrite get_add_eq. specialize (Hpos "failed"%string). lia.
      * by rewrite get_add_ne.
    + rewrite !get_add_ne by done. split; [done|]. split; [done|].
      intros key. destruct (decide ("blocked"%string = key)) as [<-|?].
      * rewrite get_add_eq. specialize (Hpos "blocked"%string). lia.
      * by rewrite get_add_ne.
    + rewrite !get_add_ne by done. split; [done|]. split; [done|].
      intros key. destruct (decide ("duplicates"%string = key)) as [<-|?].
      * rewrite get_add_eq. specialize (Hpos "duplicates"%string). lia.
      * by rewrite get_add_ne.
Qed.

(** The summary reports at most ten errors, and they are the last ones
    recorded, in order: the stored errors are some older ones followed by
    the reported ones. *)
Lemma summary_reports_last_ten_errors (c : collector) :
  let '(_, _, error_count, recent) := get_summary c in
  error_count = Z.of_nat (length (errors c)) /\
  length recent = Nat.min 10 (length (errors c)) /\
  exists older, errors c = older ++ recent.
Proof.
  unfold get_summary, recent_errors. split; [done|]. split.
  - rewrite length_drop. lia.
  - exists (take (length (errors c) - 10) (errors c)). by rewrite take_drop.
Qed.

End StatsFacts.

Section ParseFields.
Import Py Listing Parse.

Variable get_text : pystr -> pystr.
Variable find_h1 : pystr -> option pystr.
Variable find_all_img : pystr -> list img.
Variable re_search : pystr -> bool -> pystr -> option pystr.
Variable re_match : pystr -> pystr -> bool.
Variable int_of_str : pystr -> option Z.
Variable float_of_str : pystr -> option pyfloat.
Variable isupper : pystr -> bool.
Variable lower_nonascii : pystr -> N -> pystr -> pystr.

Local Abbreviation parse :=
  (parse_listing get_text find_h1 find_all_img re_search re_match int_of_str
     float_of_str isupper lower_nonascii).

Local Abbreviation stops := [lit "Город"; lit "Поколение"; lit "Кузов"].
Local Abbreviation skip_words := [lit "г."; lit "год"; lit "year"].

Tactic Notation "step_as" ident(x) :=
  eapply (post_bind (fun _ => True)); [|intros x _].
Ltac from_eq H := eapply post_any; apply H.
Tactic Notation "label_as" ident(x) := step_as x; [from_eq find_value_after_ok|].

(** What the returned record holds in the fields computed from the title,
    the seller block, the option block and the images. *)
Lemma parse_listing_fields (html url : pystr) (listing_id : Z) :
  post (fun r =>
          let text_lines := text_lines_of (get_text html) in
          let parts := match _clean (find_h1 html) with
                       | Some t => split_ws t
                       | None => []
                       end in
          title r = _clean (find_h1 html) /\
          make r = match parts with p0 :: _ :: _ => Some p0 | _ => None end /\
          model r = match parts with _ :: p1 :: _ => Some p1 | _ => None end /\
          trim r = match parts with
                   | _ :: _ :: rest => find_trim re_match lower_nonascii skip_words rest
                   | _ => None
                   end /\
          (_clean (find_h1 html) = None -> car_year r = None) /\
          photos r = dedupe [] (collect_photos (find_all_img html)) /\
          photo_count r = Z.of_nat (length (photos r)) /\
          seller_type r =
            (if truthy (seller_name r) then lit "dealer" else lit "private") /\
          (seller_name r = None \/
           (lit "Проверенный продавец" ∈ text_lines /\
            exists x, seller_name r = _clean (Some x))) /\
          (exists lines,
             (length lines <= 19)%nat /\ (forall x, x ∈ lines -> x ∈ text_lines) /\
             options_list r = collect_opts isupper stops lines /\
             options_text r = match options_list r with
                              | [] => None
                              | _ :: _ => _clean (Some (join (lit "; ") (options_list r)))
                              end))
       (parse html url listing_id).
Proof.
  unfold parse_listing. cbv zeta.
  step_as price.
  { destruct (re_search PRICE_RE false _); [|by eapply post_any].
    from_eq int_of_group_ok. }
  label_as city. label_as region1.
  step_as region.
  { destruct (truthy _); [by eapply post_any|]. from_eq find_value_after_ok. }
  label_as generation. label_as body_type. label_as transmission.
  label_as drivetrain. label_as steering. label_as color. label_as customs.
  step_as mileage1.
  { destruct (mileage_of_ok re_search int_of_str
                (join [10%N] (text_lines_of (get_text html)))) as [v Hv].
    eapply post_any. exact Hv. }
  step_as mileage_km.
  { destruct mileage1; [by eapply post_any|].
    label_as label1. step_as mileage_label.
    { destruct (truthy _); [by eapply post_any|]. from_eq find_value_after_ok. }
    destruct mileage_label as [[|c s]|]; try (by eapply post_any).
    destruct (mileage_of_ok re_search int_of_str (c :: s)) as [v Hv].
    eapply post_any. exact Hv. }
  label_as engine_raw.
  step_as engine.
  { destruct engine_raw as [[|c s]|]; try (by eapply post_any).
    step_as volume; [|by eapply post_any].
    destruct (re_search VOLUME_RE false _); [|by eapply post_any].
    from_eq catch_float_ok. }
  set (text_lines := text_lines_of (get_text html)).
  eapply (post_bind (fun v =>
            v = None \/ (lit "Проверенный продавец" ∈ text_lines /\
                         exists x, v = _clean (Some x)))).
  { unfold list_mem. case_bool_decide as Hmem; [|apply post_ok; by left].
    fold (find_value_after text_lines (lit "Проверенный продавец")).
    rewrite find_value_after_ok. apply post_ok. unfold value_after.
    destruct (index_of _ _); [|by left].
    destruct (text_lines !! _) as [x|]; [|by left]. right. eauto. }
  intros seller_name Hseller.
  eapply (post_bind (fun v : option pystr * list pystr =>
            exists lines,
              (length lines <= 19)%nat /\ (forall x, x ∈ lines -> x ∈ text_lines) /\
              v.2 = collect_opts isupper stops lines /\
              v.1 = match v.2 with
                    | [] => None
                    | _ :: _ => _clean (Some (join (lit "; ") v.2))
                    end)).
  { assert (Hnone : post (fun v : option pystr * list pystr =>
            exists lines,
              (length lines <= 19)%nat /\ (forall x, x ∈ lines -> x ∈ text_lines) /\
              v.2 = collect_opts isupper stops lines /\
              v.1 = match v.2 with
                    | [] => None
                    | _ :: _ => _clean (Some (join (lit "; ") v.2))
                    end) (Ok (None, []))).
    { apply post_ok. exists []. simpl. split; [lia|]. split; [|done].
      intros x Hx. by apply elem_of_nil in Hx. }
    destruct (list_mem _ _); [|exact Hnone].
    unfold list_index. destruct (index_of _ _) as [i|]; [|exact Hnone].
    simpl. apply post_ok.
    exists (take (Nat.min (i + 20) (length text_lines) - (i + 1))
                 (drop (i + 1) text_lines)).
    simpl. split; [rewrite length_take; lia|]. split; [|done].
    intros x Hx. apply elem_of_take in Hx as (j & Hx & _).
    rewrite lookup_drop in Hx. apply list_elem_of_lookup. eauto. }
  intros options Hoptions.
  eapply (post_bind (fun v => _clean (find_h1 html) = None -> v = None)).
  { destruct (_clean (find_h1 html)); [|by apply post_ok].
    destruct (re_search YEAR_RE false _); [|by apply post_ok].
    rewrite catch_int_ok. by apply post_ok. }
  intros car_year Hyear.
  apply post_ok. cbn [title make model trim Listing.car_year photos photo_count
    Listing.seller_type Listing.seller_name options_list options_text].
  split; [done|].
  split; [by destruct (_clean (find_h1 html)) as [t|]; [destruct (split_ws t) as [|? [|? ?]]|]|].
  split; [by destruct (_clean (find_h1 html)) as [t|]; [destruct (split_ws t) as [|? [|? ?]]|]|].
  split; [by destruct (_clean (find_h1 html)) as [t|]; [destruct (split_ws t) as [|? [|? ?]]|]|].
  repeat split; try done.
Qed.

Lemma clean_never_empty (s : option pystr) : _clean s <> Some [].
Proof.
  destruct s as [s|]; [|done]. unfold _clean.
  by destruct (join (lit " ") (split_ws s)).
Qed.

Lemma clean_words (h : pystr) :
  _clean (Some h) = match split_ws h with
                    | [] => None
                    | _ :: _ => Some (join [32%N] (split_ws h))
                    end.
Proof.
  unfold _clean. change (lit " ") with [32%N].
  pose proof (split_ws_aux_words h [] eq_refl) as Hw. fold (split_ws h) in Hw.
  destruct (split_ws h) as [|w ws] eqn:Hs; [done|].
  apply Forall_cons in Hw as [[_ Hne] _].
  destruct w as [|c w]; [done|]. by destruct ws.
Qed.

Lemma find_trim_elem (skip : list pystr) (parts : list pystr) (p : pystr) :
  find_trim re_match lower_nonascii skip parts = Some p ->
  p ∈ parts /\ re_match YEAR_PREFIX_RE p = false.
Proof.
  induction parts as [|q parts IH]; simpl; [done|].
  destruct (negb (list_mem _ skip) && negb (re_match YEAR_PREFIX_RE q)) eqn:Hq.
  - intros [= <-]. apply andb_true_iff in Hq as [_ Hq].
    apply negb_true_iff in Hq. split; [by left|done].
  - intros H. destruct (IH H). split; [by right|done].
Qed.

(** The make and the model are the first two white-space separated words of
    the first heading, and are both absent when it has fewer than two; the
    title is those words joined by single spaces; a trim is one of the later
    words; without a title there is no year either. *)
Theorem make_and_model_are_first_title_words (html url : pystr) (listing_id : Z) :
  let ws := match find_h1 html with Some h => split_ws h | None => [] end in
  exists r, parse html url listing_id = Ok r /\
    title r = match ws with [] => None | _ :: _ => Some (join (lit " ") ws) end /\
    make r = match ws with p0 :: _ :: _ => Some p0 | _ => None end /\
    model r = match ws with _ :: p1 :: _ => Some p1 | _ => None end /\
    (forall p, trim r = Some p -> p ∈ drop 2 ws) /\
    (ws = [] -> car_year r = None).
Proof.
  intros ws.
  destruct (parse_listing_fields html url listing_id)
    as (r & Hr & Ht & Hmk & Hmd & Htr & Hy & _).
  exists r. split; [exact Hr|]. cbv zeta in *.
  assert (Hparts : match _clean (find_h1 html) with
                   | Some t => split_ws t
                   | None => []
                   end = ws /\
                   _clean (find_h1 html) =
                     match ws with [] => None | _ :: _ => Some (join (lit " ") ws) end).
  { subst ws. destruct (find_h1 html) as [h|]; [|done].
    rewrite clean_words.
    pose proof (split_ws_aux_words h [] eq_refl) as Hw. fold (split_ws h) in Hw.
    destruct (split_ws h) as [|w l] eqn:Hs; [done|].
    split; [|done]. by apply split_ws_join. }
  destruct Hparts as [Hparts Hclean]. rewrite Hparts in Hmk, Hmd, Htr.
  rewrite Hclean in Ht, Hy.
  split; [exact Ht|]. split; [exact Hmk|]. split; [exact Hmd|]. split.
  - intros p Hp. rewrite Htr in Hp. destruct ws as [|? [|? rest]]; [done|done|].
    by apply find_trim_elem in Hp as [Hp _].
  - intros Hws. apply Hy. by rewrite Hws.
Qed.

(** The seller type is "dealer" exactly when a seller name was found, which
    needs the verified-seller line on the page; otherwise it is "private"
    and the name is absent. *)
Theorem seller_type_follows_seller_name (html url : pystr) (listing_id : Z) :
  exists r, parse html url listing_id = Ok r /\
    ((seller_type r = lit "dealer" /\ is_Some (seller_name r) /\
      lit "Проверенный продавец" ∈ text_lines_of (get_text html)) \/
     (seller_type r = lit "private" /\ seller_name r = None)).
Proof.
  destruct (parse_listing_fields html url listing_id)
    as (r & Hr & _ & _ & _ & _ & _ & _ & _ & Hty & Hname & _).
  exists r. split; [exact Hr|]. cbv zeta in *. rewrite Hty.
  destruct Hname as [->|[Hmem [x Hx]]]; [by right|].
  pose proof (clean_never_empty (Some x)) as Hne. rewrite <- Hx in Hne.
  destruct (seller_name r) as [[|c s]|]; [done| |by right].
  left. by eauto.
Qed.

Lemma collect_opts_spec (stop_lines lines : list pystr) :
  (length (collect_opts isupper stop_lines lines) <= length lines)%nat /\
  forall o, o ∈ collect_opts isupper stop_lines lines ->
    o ∈ lines /\ o <> [] /\ isupper o = false /\ o ∉ stop_lines.
Proof.
  induction lines as [|ln lines [IHlen IH]]; simpl.
  - split; [lia|]. intros o Ho. by apply elem_of_nil in Ho.
  - destruct ln as [|c ln].
    + split; [lia|]. intros o Ho. destruct (IH o Ho) as (? & ? & ? & ?).
      split; [by right|done].
    + destruct (isupper (c :: ln) || list_mem (c :: ln) stop_lines) eqn:Hstop.
      * split; [simpl; lia|]. intros o Ho. by apply elem_of_nil in Ho.
      * simpl. split; [lia|]. intros o [->|Ho]%elem_of_cons.
        -- apply orb_false_iff in Hstop as [Hup Hmem].
           unfold list_mem in Hmem. apply bool_decide_eq_false in Hmem.
           split; [by left|done].
        -- destruct (IH o Ho) as (? & ? & ? & ?). split; [by right|done].
Qed.

Lemma clean_of_nonspace_head (c : N) (s : pystr) :
  isspace c = false -> _clean (Some (c :: s)) <> None.
Proof.
  intros Hc. rewrite clean_words. unfold split_ws. simpl. rewrite Hc.
  destruct (split_ws_aux [c] s) eqn:Hs; [|done].
  by apply split_ws_aux_nil in Hs as [? _].
Qed.

(** At most nineteen options are collected; each is a non-empty text line of
    the page that is neither upper-case nor one of the three section labels;
    and the option text is absent exactly when no option was collected. *)
Theorem options_bounded_and_text_iff_nonempty (html url : pystr) (listing_id : Z) :
  exists r, parse html url listing_id = Ok r /\
    (length (options_list r) <= 19)%nat /\
    (forall o, o ∈ options_list r ->
       o ∈ text_lines_of (get_text html) /\ o <> [] /\ isupper o = false /\
       o ∉ stops) /\
    (options_text r = None <-> options_list r = []).
Proof.
  destruct (parse_listing_fields html url listing_id)
    as (r & Hr & _ & _ & _ & _ & _ & _ & _ & _ & _ & lines & Hlen & Hsub & Hl & Ht).
  exists r. split; [exact Hr|]. cbv zeta in *.
  destruct (collect_opts_spec stops lines) as [Hle Hin]. rewrite <- Hl in Hle, Hin.
  split; [lia|]. split.
  - intros o Ho. destruct (Hin o Ho) as (? & ? & ? & ?). split; [by apply Hsub|done].
  - rewrite Ht. destruct (options_list r) as [|o opts] eqn:Ho; [done|].
    split; [|done]. intros Hnone. exfalso.
    destruct (Hin o ltac:(by left)) as (Holine & Hone & _).
    apply Hsub in Holine. apply text_lines_stripped in Holine as [ln Hln].
    destruct o as [|c o]; [done|].
    assert (Hc : isspace c = false) by (by apply (strip_head ln o c)).
    revert Hnone. destruct opts; simpl; by apply clean_of_nonspace_head.
Qed.

Lemma dedupe_spec (seen ps : list pystr) :
  NoDup (dedupe seen ps) /\
  forall p, p ∈ dedupe seen ps <-> p ∈ ps /\ p ∉ seen.
Proof.
  revert seen. induction ps as [|q ps IH]; intros seen; simpl.
  - split; [constructor|]. intros p. split; [by intros ?%elem_of_nil|].
    by intros [?%elem_of_nil _].
  - unfold list_mem. case_bool_decide as Hq.
    + destruct (IH seen) as [Hnd Hel]. split; [done|]. intros p.
      rewrite Hel, elem_of_cons. split; [naive_solver|].
      intros [[->|Hp] Hns]; [done|done].
    + destruct (IH (q :: seen)) as [Hnd Hel]. split.
      * constructor; [|done]. rewrite Hel. intros [_ Hn]. apply Hn. by left.
      * intros p. rewrite !elem_of_cons, Hel, not_elem_of_cons.
        destruct (decide (p = q)) as [->|Hne]; naive_solver.
Qed.

Lemma collect_photos_cons (i : img) (rest : list img) :
  collect_photos (i :: rest) =
    match py_or (py_or (data_src i) (src i)) (data_lazy_src i) with
    | Some (c :: s) =>
      if startswith (c :: s) (lit "http://") || startswith (c :: s) (lit "https://")
         || startswith (c :: s) (lit "/")
      then (if startswith (c :: s) (lit "/")
            then lit "https://kolesa.kz" ++ c :: s else c :: s)
             :: collect_photos rest
      else collect_photos rest
    | _ => collect_photos rest
    end.
Proof. reflexivity. Qed.

Lemma collect_photos_absolute (imgs : list img) (p : pystr) :
  p ∈ collect_photos imgs ->
  startswith p (lit "http://") = true \/ startswith p (lit "https://") = true.
Proof.
  induction imgs as [|i imgs IH]; [by intros ?%elem_of_nil|].
  rewrite collect_photos_cons.
  destruct (py_or _ _) as [[|c s]|]; [done| |done].
  destruct (startswith (c :: s) (lit "/")) eqn:H3.
  - rewrite orb_true_r. intros [->|Hp]%elem_of_cons; [|by apply IH]. right.
    unfold startswith.
    change (lit "https://kolesa.kz") with (lit "https://" ++ lit "kolesa.kz").
    rewrite <- app_assoc. apply is_prefix_app.
  - rewrite orb_false_r.
    destruct (startswith (c :: s) (lit "http://")) eqn:H1; cbn [orb].
    + intros [->|Hp]%elem_of_cons; [by left|by apply IH].
    + destruct (startswith (c :: s) (lit "https://")) eqn:H2; [|done].
      intros [->|Hp]%elem_of_cons; [by right|by apply IH].
Qed.

(** The photos of the record hold no duplicate, each is an absolute http or
    https address, they are exactly the addresses the image loop collected,
    and the photo count is their number. *)
Theorem photos_unique_and_absolute (html url : pystr) (listing_id : Z) :
  exists r, parse html url listing_id = Ok r /\
    NoDup (photos r) /\
    (forall p, p ∈ photos r <-> p ∈ collect_photos (find_all_img html)) /\
    Forall (fun p => startswith p (lit "http://") = true \/
                     startswith p (lit "https://") = true) (photos r) /\
    photo_count r = Z.of_nat (length (photos r)).
Proof.
  destruct (parse_listing_fields html url listing_id)
    as (r & Hr & _ & _ & _ & _ & _ & Hph & Hcnt & _).
  exists r. split; [exact Hr|]. cbv zeta in *.
  destruct (dedupe_spec [] (collect_photos (find_all_img html))) as [Hnd Hel].
  rewrite <- Hph in Hnd, Hel.
  split; [done|]. split.
  - intros p. rewrite Hel. split; [by intros [? _]|].
    intros Hp. split; [done|]. apply not_elem_of_nil.
  - split; [|done]. apply Forall_forall. intros p Hp.
    apply Hel in Hp as [Hp _]. by apply collect_photos_absolute in Hp.
Qed.

End ParseFields.

(** ** The properties at sample inputs *)

Section QueueLifecycleWitnesses.
Import Queue Claim Fixtures.

Lemma retry_eligible_exactly_after_backoff_witness :
  exists r', schedule_retry t0 101 3 0 (lit "timeout") queue_two !! 101 = Some r' /\
    (forall t, eligible t r' = true <-> t0 + backoff_minutes 3 * minute <= t) /\
    eligible t0 r' = false.
Proof.
  apply (retry_eligible_exactly_after_backoff t0 101 3 0 (lit "timeout") queue_two
           (new_row (url_of 101))).
  - lia.
  - vm_compute. reflexivity.
Defined.

Lemma finished_entry_not_claimed_witness :
  101 ∉ claimed_ids
    (select_for_update_skip_locked 1 t0 200
       {| rows := update_state 101 FETCHED 200 None queue_two; locks := ∅ |}).2.
Proof.
  apply (finished_entry_not_claimed 101 200 FETCHED None 1 t0 200 queue_two ∅).
  left. reflexivity.
Defined.

End QueueLifecycleWitnesses.

Section BatchLoopWitnesses.
Import Listing Queue Fetch Fixtures Samples.

Lemma blocked_item_stops_batch_witness :
  process_items_stub (fun _ => world_http 200 captcha_page)
    [(101, url_of 101, 0); (102, url_of 102, 0)] state0 =
  {| queue := schedule_retry (t0 + 6000000) 101 1 0 (lit "Blocking detected")
                (mark_attempt t0 101 queue_two);
     silver := empty_db;
     processed_count := 0 |}.
Proof.
  apply (blocked_item_stops_batch detect_stub parse_stub upsert_stub
           (fun _ => world_http 200 captcha_page) 101 0 200 (url_of 101)
           captcha_page [(102, url_of 102, 0)] state0).
  - reflexivity.
  - reflexivity.
  - vm_compute. reflexivity.
Defined.

Lemma successful_fetch_marks_fetched_witness :
  exists st',
    process_item detect_stub parse_stub upsert_stub (world_http 200 listing_page)
      (101, url_of 101, 0) state0 = (st', true) /\
    silver st' = db_fetched /\
    processed_count st' = 0 + 1 /\
    queue st' !! 101 = Some
      {| Queue.url := url_of 101; Queue.state := FETCHED;
         attempts := 0 + 1;
         last_attempt_at := Some t0; next_retry_at := None;
         last_http_status := Some 200; last_error := None |}.
Proof.
  apply (successful_fetch_marks_fetched detect_stub parse_stub upsert_stub
           (world_http 200 listing_page) 101 0 200 (url_of 101) listing_page
           state0 (new_row (url_of 101)) listing_sample db_fetched).
  - reflexivity.
  - reflexivity.
  - reflexivity.
  - vm_compute. reflexivity.
  - reflexivity.
  - lia.
  - vm_compute. reflexivity.
  - vm_compute. reflexivity.
  - vm_compute. reflexivity.
Defined.


End BatchLoopWitnesses.

Section TaskLoopWitnesses.
Import Batch Samples.

Lemma fetch_details_terminates_witness :
  exists s' fetched_ok batches,
    fetch_details Z run_batch_sample (Z.to_nat 12) 12 7
      = Some (s', fetched_ok, batches) /\
    0 <= batches <= fetched_ok /\ fetched_ok <= 12.
Proof.
  apply (fetch_details_terminates Z run_batch_sample).
  - intros n s Hn. unfold run_batch_sample. simpl. lia.
  - lia.
Defined.

End TaskLoopWitnesses.

Section ScanWitnesses.
Import Discover Samples.

Lemma scan_stops_at_blocked_or_empty_page_witness :
  scan_loop pages_sample ([1] ++ 2 :: [3]) ∅ = scan_loop pages_sample ([1] ++ [2]) ∅.
Proof.
  apply (scan_stops_at_blocked_or_empty_page pages_sample [1] [3] 2 ∅).
  left. reflexivity.
Defined.

End ScanWitnesses.

Section UpsertWitnesses.
Import Listing Silver Fixtures Samples.


Lemma upsert_appends_at_most_one_event_witness :
  events db_after_first `prefix_of` events db_after_second /\
  (length (events db_after_second) <= length (events db_after_first) + 1)%nat.
Proof.
  apply (upsert_appends_at_most_one_event json_stub_listing json_stub_photos sha_stub
           d0 (test_listing (Some 12500000)) (utc (t0 + 60 * Queue.minute))
           db_after_first db_after_second).
  vm_compute. reflexivity.
Defined.

Lemma upsert_keeps_event_keys_unique_witness :
  NoDup (event_key <$> events db_after_third).
Proof.
  apply (upsert_keeps_event_keys_unique json_stub_listing json_stub_photos sha_stub
           d0 (test_listing (Some 12500000)) (utc (t0 + 120 * Queue.minute))
           db_after_second db_after_third).
  - vm_compute. apply NoDup_singleton.
  - vm_compute. reflexivity.
Defined.

Lemma upsert_twice_is_upsert_once_witness :
  upsert_stub d0 (test_listing (Some 12000000)) (utc t0) db_after_first
    = Ok db_after_first.
Proof.
  apply (upsert_twice_is_upsert_once json_stub_listing json_stub_photos sha_stub
           d0 (test_listing (Some 12000000)) (utc t0) empty_db db_after_first).
  - intros p Hp. injection Hp as <-. unfold price_in_column. lia.
  - vm_compute. reflexivity.
Defined.

Lemma enriched_views_survive_upsert_witness :
  (d_views <$> daily db_refetched !! (888888888, d0)) = Some (Some 57).
Proof.
  apply (enriched_views_survive_upsert json_stub_listing json_stub_photos sha_stub
           d0 57 (test_listing (Some 12000000)) (utc (t0 + 60 * Queue.minute))
           db_after_first db_refetched
           {| d_price_kzt := Some 12000000; d_is_active := true;
              d_views := None; d_photo_count := Some 1 |}).
  - vm_compute. reflexivity.
  - vm_compute. reflexivity.
Defined.

End UpsertWitnesses.

Section DetectWitnesses.
Import Py Blocking Fixtures Samples.

Lemma large_page_needs_pattern_or_title_witness :
  contains (lit "challenge") large_page = true /\
  contains (lit "cf-ray") large_page = true /\
  detect_stub large_page [] = (false, None).
Proof.
  split; [vm_compute; reflexivity|]. split; [vm_compute; reflexivity|].
  apply (large_page_needs_pattern_or_title lower_stub re_stub large_page []).
  - vm_compute. discriminate.
  - intros p Hin. simpl in Hin.
    repeat (destruct Hin as [<-|Hin]; [vm_compute; reflexivity|]). destruct Hin.
  - intros title Ht. vm_compute in Ht. injection Ht as <-.
    intros kw Hin. simpl in Hin.
    repeat (destruct Hin as [<-|Hin]; [vm_compute; reflexivity|]). destruct Hin.
Defined.

End DetectWitnesses.

Section CleanWitnesses.
Import Py Parse.

Lemma text_lines_are_stripped_witness :
  let x := lit "Алматы" in
  x <> [] /\ (10%N ∉ x) /\
  (forall c r, x = c :: r -> isspace c = false) /\
  (forall r c, x = r ++ [c] -> isspace c = false).
Proof.
  apply (text_lines_are_stripped
           (lit "Город" ++ [10%N] ++ lit "   Алматы  " ++ [10%N])).
  vm_compute. apply list_elem_of_further, list_elem_of_here.
Defined.

End CleanWitnesses.

Section ViewsWitnesses.
Import Views.

Lemma chunks_partition_witness :
  exists cs, chunks 2 [1; 2; 3; 4; 5] = Ok cs /\
    concat cs = [1; 2; 3; 4; 5] /\
    Forall (fun c => (0 < length c)%nat /\ Z.of_nat (length c) <= 2) cs.
Proof. apply (chunks_partition 2 [1; 2; 3; 4; 5]). lia. Defined.

End ViewsWitnesses.
